(** * The universe provider: identity, resource types, configuration

    A shallow embedding of [universe/provider.go] and of the parts of the
    Go standard library it calls ([os.LookupEnv], [filepath.Base],
    [regexp.FindStringSubmatch], [strings.ToUpper], [strings.Fields],
    [strings.HasPrefix]), followed by the properties of the three
    functions that carry the provider's decision logic:

    - [getProviderNameFromBinaryOrEnvironment]
    - [getResourceTypeNamesFromEnvironment]
    - [providerConfigure]

    [Provider], [getResourceMap] and [providerConfigureV2] hand the results
    of these three to the plugin SDK and decide nothing themselves.

    Go strings are byte sequences; they are modelled by [string], whose
    characters are the 256 byte values. The process environment and
    [os.Args[0]] are arguments of the functions that read them. *)

From Stdlib Require Import ZArith Ascii String Bool Lia.
From stdpp Require Import base option list gmap strings.

Local Open Scope Z_scope.
Local Open Scope stdpp_scope.

(* ===================================================================== *)
(** * Byte strings                                                        *)
(* ===================================================================== *)

Module Str.

(** [s[:n]]: the first [n] bytes of [s] (all of [s] when it is shorter). *)
Fixpoint take (n : nat) (s : string) : string :=
  match n, s with
  | S n', String c s' => String c (take n' s')
  | _, _ => ""
  end.

(** Every byte of [s] satisfies [p]. *)
Fixpoint all (p : ascii → bool) (s : string) : bool :=
  match s with
  | "" => true
  | String c s' => p c && all p s'
  end.

(** The first byte of [s], if any, fails [p]. *)
Definition stops (p : ascii → bool) (s : string) : bool :=
  match s with
  | "" => true
  | String c _ => negb (p c)
  end.

(** [strip l s] is [Some t] when [s = l ++ t]. *)
Fixpoint strip (l s : string) : option string :=
  match l, s with
  | "", _ => Some s
  | String a l', String b s' => if Ascii.eqb a b then strip l' s' else None
  | String _ _, "" => None
  end.

Definition byte (c : ascii) : Z := Z.of_N (N_of_ascii c).

End Str.

(* ===================================================================== *)
(** * Package os                                                          *)
(* ===================================================================== *)

Module os.

(** The process environment: a finite map from names to values. *)
Definition LookupEnv (environ : gmap string string) (key : string)
  : option string := environ !! key.

End os.

(* ===================================================================== *)
(** * Package path/filepath (Unix)                                        *)
(* ===================================================================== *)

Module filepath.

Definition IsPathSeparator (c : ascii) : bool := Ascii.eqb c "/".

(** [for len(path) > 0 && IsPathSeparator(path[len(path)-1])
      { path = path[0 : len(path)-1] }] *)
Fixpoint stripTrailingSeparators (path : string) : string :=
  match path with
  | "" => ""
  | String c rest =>
      match stripTrailingSeparators rest with
      | "" => if IsPathSeparator c then "" else String c ""
      | t => String c t
      end
  end.

(** The bytes after the last separator: [path[i+1:]] for the largest [i]
    with [IsPathSeparator(path[i])]; [None] when there is no separator
    (the loop ends with [i < 0]). *)
Fixpoint afterLastSeparator (path : string) : option string :=
  match path with
  | "" => None
  | String c rest =>
      match afterLastSeparator rest with
      | Some t => Some t
      | None => if IsPathSeparator c then Some rest else None
      end
  end.

(** [filepath.Base]: the last element of the path; the volume name is
    empty on Unix. *)
Definition Base (path : string) : string :=
  match path with
  | "" => "."
  | _ =>
      let path := stripTrailingSeparators path in
      let path := default path (afterLastSeparator path) in
      match path with
      | "" => "/"
      | _ => path
      end
  end.

(** A path element: no byte of [b] is a separator. *)
Definition noSeparator (b : string) : bool :=
  Str.all (λ c, negb (IsPathSeparator c)) b.

End filepath.

(* ===================================================================== *)
(** * Package regexp                                                      *)
(* ===================================================================== *)

(** The syntax tree of the operators that the provider's pattern uses
    (named after [regexp/syntax]'s [Op]s), and a backtracking matcher with
    Go's leftmost-first preference: a greedy operator tries the longer
    match first, and the first overall success is the match, with the
    submatches recorded along that path.

    The matcher works on bytes. Go matches UTF-8 runes; for a pattern whose
    literals and classes are ASCII literals, [\d] and [[^\d]] the two agree:
    every byte of a multi-byte rune is [>= 0x80], hence passes for [[^\d]]
    and for nothing else, so a byte-level match can never stop inside a
    rune and continue with a literal, a digit or the end of the text. *)

Module regexp.

Inductive Regexp : Type :=
| EmptyMatch                          (* matches the empty string *)
| Literal (l : string)                (* a literal string *)
| CharClass (p : ascii → bool)        (* a character class *)
| BeginText                           (* ^ (no multi-line flag) *)
| EndText                             (* $ (no multi-line flag) *)
| Capture (i : nat) (r : Regexp)      (* ( r ), submatch number i *)
| NonCapture (r : Regexp)             (* (?: r ) *)
| Star (r : Regexp)                   (* r*, greedy *)
| Plus (r : Regexp)                   (* r+, greedy *)
| Quest (r : Regexp)                  (* r?, greedy *)
| Concat (r1 r2 : Regexp).            (* r1 r2 *)

(** [\d] is Perl's ASCII class [0-9]; [[^\d]] is its complement, new
    line included. *)
Definition digit (c : ascii) : bool :=
  (48 <=? Str.byte c) && (Str.byte c <=? 57).
Definition notDigit (c : ascii) : bool := negb (digit c).

(** Submatch [i] of a match in progress: [None] while group [i] has not
    taken part. *)
Abbreviation submatches := (list (option string)).
Definition cont := string → submatches → option submatches.
Definition matcher := string → submatches → cont → option submatches.

(** The greedy loop of [r*]: one more iteration first, leaving the loop
    second. An iteration that matches the empty string is not taken. *)
Fixpoint star (step : matcher) (fuel : nat) (s : string)
    (caps : submatches) (k : cont) : option submatches :=
  match fuel with
  | O => k s caps
  | S fuel' =>
      match step s caps (λ s' caps',
              if (String.length s' <? String.length s)%nat
              then star step fuel' s' caps' k else None) with
      | Some m => Some m
      | None => k s caps
      end
  end.

(** [backtrack n r s caps k]: match [r] at the front of [s], the rest of
    a text of [n] bytes, then continue with [k] on what is left. *)
Fixpoint backtrack (n : nat) (r : Regexp) : matcher :=
  λ s caps k,
  match r with
  | EmptyMatch => k s caps
  | Literal l =>
      match Str.strip l s with
      | Some s' => k s' caps
      | None => None
      end
  | CharClass p =>
      match s with
      | String c s' => if p c then k s' caps else None
      | "" => None
      end
  | BeginText => if (String.length s =? n)%nat then k s caps else None
  | EndText => match s with "" => k s caps | _ => None end
  | Capture i r' =>
      backtrack n r' s caps (λ s' caps',
        k s' (<[i := Some (Str.take (String.length s - String.length s') s)]>
                caps'))
  | NonCapture r' => backtrack n r' s caps k
  | Star r' => star (backtrack n r') (String.length s) s caps k
  | Plus r' =>
      backtrack n r' s caps (λ s' caps',
        star (backtrack n r') (String.length s') s' caps' k)
  | Quest r' =>
      match backtrack n r' s caps k with
      | Some m => Some m
      | None => k s caps
      end
  | Concat r1 r2 =>
      backtrack n r1 s caps (λ s' caps', backtrack n r2 s' caps' k)
  end.

(** [Regexp.NumSubexp]: the number of parenthesized subexpressions. *)
Fixpoint NumSubexp (r : Regexp) : nat :=
  match r with
  | Capture i r' => Nat.max i (NumSubexp r')
  | NonCapture r' | Star r' | Plus r' | Quest r' => NumSubexp r'
  | Concat r1 r2 => Nat.max (NumSubexp r1) (NumSubexp r2)
  | _ => O
  end.

(** The match that starts at the front of [s]; submatch 0 is the text of
    the whole match. *)
Definition matchAt (re : Regexp) (n : nat) (s : string)
  : option submatches :=
  backtrack n re s (replicate (S (NumSubexp re)) None) (λ s' caps,
    Some (<[O := Some (Str.take (String.length s - String.length s') s)]>
            caps)).

(** The leftmost match: the first start offset at which there is one. *)
Fixpoint search (re : Regexp) (n : nat) (s : string)
  : option submatches :=
  match matchAt re n s with
  | Some m => Some m
  | None =>
      match s with
      | "" => None
      | String _ s' => search re n s'
      end
  end.

(** [Regexp.FindStringSubmatch]: the text of the leftmost match and of
    its submatches, [""] for a submatch that did not take part; [nil]
    ([[]]) when there is no match. *)
Definition FindStringSubmatch (re : Regexp) (s : string) : list string :=
  match search re (String.length s) s with
  | Some m => default "" <$> m
  | None => []
  end.

End regexp.

Declare Scope regexp_scope.
Delimit Scope regexp_scope with re.
Bind Scope regexp_scope with regexp.Regexp.
Infix "⋅" := regexp.Concat (at level 41, right associativity) : regexp_scope.

(* ===================================================================== *)
(** * Packages unicode/utf8, unicode and strings                          *)
(* ===================================================================== *)

Module utf8.

Definition RuneError : Z := 65533.   (* U+FFFD *)
Definition RuneSelf : Z := 128.

(** Byte [i] of [s]. *)
Fixpoint at_ (i : nat) (s : string) : Z :=
  match s, i with
  | "", _ => 0
  | String c _, O => Str.byte c
  | String _ s', S i' => at_ i' s'
  end.

(** The table [first] with [acceptRanges]: for a leading byte of a
    multi-byte sequence, the length of the sequence and the range allowed
    for its second byte; [None] for a byte that cannot lead. *)
Definition first (b : Z) : option (nat * Z * Z) :=
  if (194 <=? b) && (b <=? 223) then Some (2%nat, 128, 191)
  else if b =? 224 then Some (3%nat, 160, 191)
  else if (225 <=? b) && (b <=? 236) then Some (3%nat, 128, 191)
  else if b =? 237 then Some (3%nat, 128, 159)
  else if (238 <=? b) && (b <=? 239) then Some (3%nat, 128, 191)
  else if b =? 240 then Some (4%nat, 144, 191)
  else if (241 <=? b) && (b <=? 243) then Some (4%nat, 128, 191)
  else if b =? 244 then Some (4%nat, 128, 143)
  else None.

Definition continuation (b : Z) : bool := (128 <=? b) && (b <=? 191).

(** [utf8.DecodeRuneInString]: the first rune of [s] and its width in
    bytes; [(RuneError, 1)] for an invalid encoding. *)
Definition DecodeRuneInString (s : string) : Z * nat :=
  match s with
  | "" => (RuneError, O)
  | String c0 _ =>
      let s0 := Str.byte c0 in
      if s0 <? RuneSelf then (s0, 1%nat)
      else
        match first s0 with
        | None => (RuneError, 1%nat)
        | Some (sz, lo, hi) =>
            if (String.length s <? sz)%nat then (RuneError, 1%nat)
            else
              let s1 := at_ 1 s in
              if (s1 <? lo) || (hi <? s1) then (RuneError, 1%nat)
              else if (sz <=? 2)%nat then
                (Z.lor (Z.shiftl (Z.land s0 31) 6) (Z.land s1 63), 2%nat)
              else
                let s2 := at_ 2 s in
                if negb (continuation s2) then (RuneError, 1%nat)
                else if (sz <=? 3)%nat then
                  (Z.lor (Z.lor (Z.shiftl (Z.land s0 15) 12)
                                (Z.shiftl (Z.land s1 63) 6))
                         (Z.land s2 63), 3%nat)
                else
                  let s3 := at_ 3 s in
                  if negb (continuation s3) then (RuneError, 1%nat)
                  else
                    (Z.lor (Z.lor (Z.lor (Z.shiftl (Z.land s0 7) 18)
                                         (Z.shiftl (Z.land s1 63) 12))
                                  (Z.shiftl (Z.land s2 63) 6))
                           (Z.land s3 63), 4%nat)
        end
  end.

End utf8.

Module unicode.

(** [unicode.IsSpace]: the Latin-1 white space, then the [White_Space]
    property beyond Latin-1. *)
Definition IsSpace (r : Z) : bool :=
  if r <=? 255 then
    (r =? 9) || (r =? 10) || (r =? 11) || (r =? 12) || (r =? 13)
    || (r =? 32) || (r =? 133) || (r =? 160)
  else
    (r =? 5760) || ((8192 <=? r) && (r <=? 8202))
    || (r =? 8232) || (r =? 8233) || (r =? 8239) || (r =? 8287)
    || (r =? 12288).

(** Upper-casing beyond ASCII goes through Unicode's case tables, which
    are not part of this development: [MapToUpper s] stands for
    [strings.Map(unicode.ToUpper, s)]. *)
Class CaseTables := { MapToUpper : string → string }.

End unicode.

Module strings.

(** [len(s) >= len(prefix) && s[:len(prefix)] == prefix] *)
Definition HasPrefix (s prefix : string) : bool :=
  (String.length prefix <=? String.length s)%nat
  && String.eqb (Str.take (String.length prefix) s) prefix.

Definition isASCII (s : string) : bool :=
  Str.all (λ c, Str.byte c <? utf8.RuneSelf) s.

Definition isLower (c : ascii) : bool :=
  (97 <=? Str.byte c) && (Str.byte c <=? 122).

Definition upperByte (c : ascii) : ascii :=
  if isLower c then ascii_of_N (N_of_ascii c - 32) else c.

Fixpoint mapBytes (f : ascii → ascii) (s : string) : string :=
  match s with
  | "" => ""
  | String c s' => String (f c) (mapBytes f s')
  end.

(** [strings.ToUpper]: an ASCII string is mapped byte by byte (and
    returned as it is when it has no lower-case letter); any other
    string goes through the Unicode tables. *)
Definition ToUpper {tables : unicode.CaseTables} (s : string) : string :=
  if isASCII s then
    if Str.all (λ c, negb (isLower c)) s then s else mapBytes upperByte s
  else unicode.MapToUpper s.

(** The loop of [strings.FieldsFunc], byte by byte. [skip] counts the
    bytes still to come of the rune decoded last; [start] is the field
    being collected ([start >= 0] in the source), [None] between
    fields. *)
Fixpoint fieldsLoop (f : Z → bool) (skip : nat) (start : option string)
    (s : string) : list string :=
  match s with
  | "" => option_list start
  | String c s' =>
      match skip with
      | S skip' =>
          fieldsLoop f skip' ((λ cur, cur +:+ String c "") <$> start) s'
      | O =>
          let '(r, size) := utf8.DecodeRuneInString s in
          if f r then option_list start ++ fieldsLoop f (size - 1) None s'
          else
            fieldsLoop f (size - 1)
              (Some (default "" start +:+ String c "")) s'
      end
  end.

Definition FieldsFunc (s : string) (f : Z → bool) : list string :=
  fieldsLoop f O None s.

(** [strings.Fields]: split around each run of white space. The source
    has a fast path for ASCII strings, on which [unicode.IsSpace] and
    its table [asciiSpace] agree. *)
Definition Fields (s : string) : list string :=
  FieldsFunc s unicode.IsSpace.

End strings.

(* ===================================================================== *)
(** * Package universe: provider.go                                       *)
(* ===================================================================== *)

(** Values of type [interface{}], by dynamic type: [nil], [bool], [int],
    [string], [[]interface{}] and [map[string]interface{}], which are what
    [*schema.ResourceData] yields, and [map[string]string], a map of
    another Go type, which another [ResourceLike] may yield. *)
#[warnings="-register-all"]
Inductive value : Type :=
| VNil
| VBool (b : bool)
| VInt (n : Z)
| VString (s : string)
| VList (l : list value)
| VMap (m : gmap string value)
| VStrMap (m : gmap string string).

(** [fmt.Errorf(format, args...)], kept unrendered. *)
Record error : Type := Errorf { format : string; args : list value }.

(** The interface [ResourceLike]: what [providerConfigure] uses of
    [*schema.ResourceData] is the query [GetOk], which reads the
    configuration and changes nothing: a reader is a function of the
    key. *)
Record ResourceLike : Type := { GetOk : string → value * bool }.

(* ===================================================================== *)
(** * Plugin SDK: packages diag and schema                                *)
(* ===================================================================== *)

Module diag.

Inductive Severity : Type := Error | Warning.

(** [Summary] is [err.Error()], kept as the unrendered error. *)
Record Diagnostic : Type :=
  { severity : Severity; Summary : error; Detail : string }.

Abbreviation Diagnostics := (list Diagnostic).

(** [diag.FromErr]: [nil] for a [nil] error, otherwise one diagnostic of
    severity [Error] whose summary is the error's message. *)
Definition FromErr (err : option error) : Diagnostics :=
  match err with
  | None => []
  | Some e => [ {| severity := Error; Summary := e; Detail := "" |} ]
  end.

(** [Diagnostics.HasError] *)
Definition HasError (diags : Diagnostics) : bool :=
  existsb (λ d, match severity d with Error => true | Warning => false end)
    diags.

End diag.

Module schema.

Inductive ValueType : Type :=
| TypeInvalid | TypeBool | TypeInt | TypeFloat | TypeString
| TypeList | TypeMap | TypeSet.

(** The fields of [schema.Schema] that the provider sets; [Elem] holds the
    schema of the elements of a map. *)
#[warnings="-register-all"]
Inductive Schema : Type :=
  mkSchema (Description : string) (Type_ : ValueType) (Optional : bool)
           (Elem : option Schema).

Definition Type_ (s : Schema) : ValueType :=
  match s with mkSchema _ t _ _ => t end.
Definition Optional (s : Schema) : bool :=
  match s with mkSchema _ _ o _ => o end.
Definition Elem (s : Schema) : option Schema :=
  match s with mkSchema _ _ _ e => e end.

(** [schema.Provider], for a type [R] of resources ([*schema.Resource]). *)
Record Provider (R : Type) : Type :=
  { ConfigureContextFunc : ResourceLike → value * diag.Diagnostics;
    ResourcesMap : gmap string R;
    Schema_ : gmap string Schema }.
Arguments ConfigureContextFunc {R}.
Arguments ResourcesMap {R}.
Arguments Schema_ {R}.

End schema.

Module universe.
Import regexp.

Definition DefaultProviderName : string := "universe".
Definition EnvProviderNameVar : string := "TERRAFORM_UNIVERSE_PROVIDERNAME".

(** [-(\d+(?:\.\d+(?:\.\d+)?)?)] *)
Definition versionSuffix : Regexp :=
  (Literal "-" ⋅
   Capture 2
     (Plus (CharClass digit) ⋅
      Quest (NonCapture
        (Literal "." ⋅ Plus (CharClass digit) ⋅
         Quest (NonCapture (Literal "." ⋅ Plus (CharClass digit)))))))%re.

(** [-pre\d*]: the pre-release suffix. *)
Definition preSuffix : Regexp :=
  (Literal "-pre" ⋅ Star (CharClass digit))%re.

(** The pattern of the source, piece by piece:
    [^]  [terraform-provider-]  [(?:([^\d]+))]
    [(?:-(\d+(?:\.\d+(?:\.\d+)?)?))?]  [(?:] [-pre\d*] [)?]  [$] *)
Definition providerNameRe : Regexp :=
  (BeginText ⋅ Literal "terraform-provider-" ⋅
   NonCapture (Capture 1 (Plus (CharClass notDigit))) ⋅
   Quest (NonCapture versionSuffix) ⋅
   Quest (NonCapture preSuffix) ⋅
   EndText)%re.

(** [arg0] is [os.Args[0]]. *)
Definition getProviderNameFromBinaryOrEnvironment
    (environ : gmap string string) (arg0 : string) : string :=
  match os.LookupEnv environ EnvProviderNameVar with
  | Some name => name
  | None =>
      let binaryName := filepath.Base arg0 in
      let s := FindStringSubmatch providerNameRe binaryName in
      if (2 <=? length s)%nat then default "" (s !! 1%nat)
      else DefaultProviderName
  end.

(** The resource type name registered for the token [x]. *)
Definition rtn (prefix x : string) : string :=
  if negb (strings.HasPrefix x prefix) then prefix +:+ x else x.

Definition getResourceTypeNamesFromEnvironment {tables : unicode.CaseTables}
    (environ : gmap string string) (providerName : string)
  : gmap string bool :=
  let result : gmap string bool := {[ providerName := true ]} in
  let prefix := providerName +:+ "_" in
  let resourceTypesVarName :=
    "TERRAFORM_" +:+ strings.ToUpper providerName +:+ "_RESOURCETYPES" in
  match os.LookupEnv environ resourceTypesVarName with
  | None => result
  | Some resourceTypeNames =>
      let f := strings.Fields resourceTypeNames in
      foldl (λ result x, <[ rtn prefix x := true ]> result) result f
  end.

Definition recognizedKeys : list string :=
  ["id_key"; "executor"; "script"; "environment"; "javascript"].

(** The map that the loop over the recognized keys builds. *)
Definition configurationData (d : ResourceLike) : gmap string value :=
  foldl (λ data key,
           let '(val, ok) := GetOk d key in
           if negb ok then data else <[ key := val ]> data)
        ∅ recognizedKeys.

(** [e.(map[string]interface{})] *)
Definition isMap (e : value) : bool :=
  match e with VMap _ => true | _ => false end.

Definition providerConfigure (d : ResourceLike) : value * option error :=
  let configurationData := configurationData d in
  let '(e, ok) := GetOk d "environment" in
  if ok && negb (isMap e) then
    (VNil,
     Some (Errorf
             "environment - expected map[string]interface{} bit got %#v"
             [e]))
  else (VMap configurationData, None).

(** [getResourceMap]: every resource type name is bound to what
    [resourceCustom()] returns, the generic resource of the provider
    (defined in another file of the package). The order in which the loop
    visits the names is not specified and does not matter. *)
Definition getResourceMap {tables : unicode.CaseTables} {R : Type}
    (resourceCustom : R) (environ : gmap string string)
    (providerName : string) : gmap string R :=
  map_fold (λ resourceName _ (result : gmap string R),
              <[ resourceName := resourceCustom ]> result)
    ∅ (getResourceTypeNamesFromEnvironment environ providerName).

(** [providerConfigureV2]: the context is not used. *)
Definition providerConfigureV2 (d : ResourceLike)
  : value * diag.Diagnostics :=
  let '(result, err) := providerConfigure d in
  match err with
  | Some e => (result, diag.FromErr (Some e))
  | None => (result, [])
  end.

(** The schema of the provider block. *)
Definition providerSchema : gmap string schema.Schema :=
  {[ "id_key" :=
       schema.mkSchema
         "The name of the key which holds the unique identifier of the resource. e.g. 'id'"
         schema.TypeString true None;
     "executor" :=
       schema.mkSchema "The name of the program to run. e.g. python"
         schema.TypeString true None;
     "script" :=
       schema.mkSchema
         "The path to the script passed as the first argument to 'executor'."
         schema.TypeString true None;
     "environment" :=
       schema.mkSchema
         "The configuration passed as environment variables to the provider script."
         schema.TypeMap true
         (Some (schema.mkSchema "" schema.TypeString false None)) ]}.

(** [Provider]; its calls of [log.Printf] are left out. *)
Definition Provider {tables : unicode.CaseTables} {R : Type}
    (resourceCustom : R) (environ : gmap string string) (arg0 : string)
  : schema.Provider R :=
  let providerName := getProviderNameFromBinaryOrEnvironment environ arg0 in
  let resourceMap := getResourceMap resourceCustom environ providerName in
  {| schema.ConfigureContextFunc := providerConfigureV2;
     schema.ResourcesMap := resourceMap;
     schema.Schema_ := providerSchema |}.

End universe.

(* ===================================================================== *)
(** * What it means for a text to match                                   *)
(* ===================================================================== *)

(** The declarative reading of a pattern, without preference among the
    ways to match: [denote n r s s'] says that [r] can match at the front
    of [s] and leave [s'], in a text of [n] bytes. *)

Module pattern.
Import regexp.

Fixpoint iter (R : string → string → Prop) (j : nat) (s s' : string)
  : Prop :=
  match j with
  | O => s' = s
  | S j' => ∃ t, R s t ∧ iter R j' t s'
  end.

Fixpoint denote (n : nat) (r : Regexp) (s s' : string) : Prop :=
  match r with
  | EmptyMatch => s' = s
  | Literal l => s = l +:+ s'
  | CharClass p => ∃ c, p c = true ∧ s = String c s'
  | BeginText => s' = s ∧ String.length s = n
  | EndText => s' = s ∧ s = ""
  | Capture _ r' | NonCapture r' => denote n r' s s'
  | Star r' => ∃ j, iter (denote n r') j s s'
  | Plus r' => ∃ t, denote n r' s t ∧ ∃ j, iter (denote n r') j t s'
  | Quest r' => denote n r' s s' ∨ s' = s
  | Concat r1 r2 => ∃ t, denote n r1 s t ∧ denote n r2 t s'
  end.

(** One or more digits. *)
Definition number (a : string) : Prop :=
  a ≠ "" ∧ Str.all digit a = true.

(** A dotted numeric version of one to three components. *)
Definition version (v : string) : Prop :=
  ∃ a, number a ∧
    (v = a ∨ ∃ b, number b ∧
       (v = a +:+ "." +:+ b ∨ ∃ c, number c ∧
          v = a +:+ "." +:+ b +:+ "." +:+ c)).

(** The binary names that the provider's pattern describes: the literal
    prefix, a name of one or more non-digit characters, optionally a
    version suffix, optionally a pre-release suffix. *)
Definition providerBinary (binaryName : string) : Prop :=
  ∃ name ver pre,
    binaryName = "terraform-provider-" +:+ name +:+ ver +:+ pre ∧
    name ≠ "" ∧ Str.all notDigit name = true ∧
    (ver = "" ∨ ∃ v, version v ∧ ver = "-" +:+ v) ∧
    (pre = "" ∨ ∃ d, Str.all digit d = true ∧ pre = "-pre" +:+ d).

(** A continuation that accepts at [s], whatever the submatches. *)
Definition accepts (k : cont) (s : string) : Prop :=
  ∀ caps, is_Some (k s caps).

(** A continuation that keeps the number [L] of submatches. *)
Definition keeps (L : nat) (k : cont) : Prop :=
  ∀ s caps m, k s caps = Some m → length caps = L → length m = L.

(** A continuation that leaves submatch [i] as it is when it is [x]. *)
Definition fixes (i : nat) (x : option (option string)) (k : cont) : Prop :=
  ∀ s caps m, k s caps = Some m → caps !! i = x → m !! i = x.

(** Whether [r] has a group numbered [i]. *)
Fixpoint hasGroup (i : nat) (r : Regexp) : bool :=
  match r with
  | Capture j r' => (i =? j)%nat || hasGroup i r'
  | NonCapture r' | Star r' | Plus r' | Quest r' => hasGroup i r'
  | Concat r1 r2 => hasGroup i r1 || hasGroup i r2
  | _ => false
  end.

(** The forms of the pre-release suffix: none, or [-pre] and digits. *)
Definition preRelease (pre : string) : Prop :=
  pre = "" ∨ ∃ d, Str.all digit d = true ∧ pre = "-pre" +:+ d.

(** [name] is a name that the pattern can take from [binaryName]: one or
    more non-digits after the prefix, followed by nothing but an optional
    version suffix and an optional pre-release suffix. *)
Definition providerSplit (binaryName name : string) : Prop :=
  ∃ ver pre,
    binaryName = "terraform-provider-" +:+ name +:+ ver +:+ pre ∧
    name ≠ "" ∧ Str.all notDigit name = true ∧
    (ver = "" ∨ ∃ v, version v ∧ ver = "-" +:+ v) ∧
    preRelease pre.

End pattern.

(* ===================================================================== *)
(** * Configurations                                                      *)
(* ===================================================================== *)

Module config.

(** A reader over the values that a configuration block supplies:
    [GetOk] of a key that is not supplied is [(nil, false)]. *)
Definition reader (supplied : gmap string value) : ResourceLike :=
  {| GetOk key :=
       match supplied !! key with
       | Some v => (v, true)
       | None => (VNil, false)
       end |}.

(** A flat string-keyed, string-valued mapping. *)
Definition flatStringMap (v : value) : Prop :=
  ∃ m, v = VMap m ∧ ∀ k x, m !! k = Some x → ∃ s, x = VString s.

(** [executor] and [script] only. *)
Definition minimal : ResourceLike :=
  reader {[ "executor" := VString "python";
            "script" := VString "crud.py" ]}.

(** [environment] supplied as a single string. *)
Definition stringEnvironment : ResourceLike :=
  reader {[ "executor" := VString "python";
            "environment" := VString "PATH=/bin" ]}.

(** [environment] supplied as a map with a value that is not a string. *)
Definition mixedEnvironment : ResourceLike :=
  reader {[ "environment" := VMap {[ "DEBUG" := VInt 1 ]} ]}.

(** A map, of whatever Go type. *)
Definition anyMap (v : value) : bool :=
  match v with VMap _ | VStrMap _ => true | _ => false end.

(** [environment] supplied as a [map[string]string]. *)
Definition stringMapEnvironment : ResourceLike :=
  reader {[ "environment" := VStrMap {[ "PATH" := "/bin" ]} ]}.

End config.

(* ===================================================================== *)
(** * The model on sample inputs                                          *)
(* ===================================================================== *)

Section Samples.
Import regexp universe.

Example Base_samples :
  filepath.Base "/usr/bin/terraform-provider-widget"
  = "terraform-provider-widget"
  ∧ filepath.Base "a/b//" = "b" ∧ filepath.Base "///" = "/"
  ∧ filepath.Base "" = "." ∧ filepath.Base "debug.test" = "debug.test".
Proof. repeat split. Qed.

Example Find_version_pre :
  FindStringSubmatch providerNameRe "terraform-provider-widget-1.2.3-pre4"
  = ["terraform-provider-widget-1.2.3-pre4"; "widget"; "1.2.3"].
Proof. reflexivity. Qed.

(** A name may end in what looks like a pre-release suffix: the greedy
    group takes it. *)
Example Find_pre_only :
  FindStringSubmatch providerNameRe "terraform-provider-widget-pre"
  = ["terraform-provider-widget-pre"; "widget-pre"; ""].
Proof. reflexivity. Qed.

Example Find_four_components :
  FindStringSubmatch providerNameRe "terraform-provider-widget-1.2.3.4" = [].
Proof. reflexivity. Qed.

Example Find_not_at_start :
  FindStringSubmatch providerNameRe "xterraform-provider-widget" = [].
Proof. reflexivity. Qed.

Example Fields_ascii :
  strings.Fields ("  foo" +:+ String "009" (String "010" "widget_bar  x "))
  = ["foo"; "widget_bar"; "x"].
Proof. reflexivity. Qed.

(** U+00A0 (bytes C2 A0) and U+3000 (bytes E3 80 80) separate fields; a
    lone byte A0 is an invalid encoding and does not. *)
Example Fields_unicode :
  strings.Fields
    ("a" +:+ String "194" (String "160" "b") +:+
     String "227" (String "128" (String "128" "c")) +:+ String "160" "d")
  = ["a"; "b"; "c" +:+ String "160" "d"].
Proof. reflexivity. Qed.

Example ToUpper_ascii (tables : unicode.CaseTables) :
  strings.ToUpper "my-widget_9" = "MY-WIDGET_9".
Proof. reflexivity. Qed.

End Samples.

(* ===================================================================== *)
(** * Lemmas on byte strings                                              *)
(* ===================================================================== *)

Section StrFacts.
Implicit Types (s t u : string) (c : ascii) (p : ascii → bool).

Lemma str_app_cons c s t : String c s +:+ t = String c (s +:+ t).
Proof. reflexivity. Qed.

Lemma str_app_nil_l s : "" +:+ s = s.
Proof. reflexivity. Qed.

Lemma str_app_nil_r s : s +:+ "" = s.
Proof. induction s as [|c s IH]; [done|]. by rewrite str_app_cons, IH. Qed.

Lemma str_app_assoc s t u : (s +:+ t) +:+ u = s +:+ (t +:+ u).
Proof. induction s as [|c s IH]; [done|]. by rewrite !str_app_cons, IH. Qed.

Lemma str_length_app s t :
  String.length (s +:+ t) = (String.length s + String.length t)%nat.
Proof.
  induction s as [|c s IH]; [done|]. rewrite str_app_cons. simpl. by rewrite IH.
Qed.

Lemma str_take_length s : Str.take (String.length s) s = s.
Proof. induction s as [|c s IH]; [done|]. simpl. by rewrite IH. Qed.

Lemma str_take_app s t : Str.take (String.length s) (s +:+ t) = s.
Proof.
  induction s as [|c s IH]; [by destruct t|].
  rewrite str_app_cons. simpl. by rewrite IH.
Qed.

(** What a capture group records: the bytes consumed between [s ++ t]
    and [t]. *)
Lemma str_take_consumed s t :
  Str.take (String.length (s +:+ t) - String.length t) (s +:+ t) = s.
Proof.
  rewrite str_length_app.
  replace (String.length s + String.length t - String.length t)%nat
    with (String.length s) by lia.
  apply str_take_app.
Qed.

Lemma str_strip_app l s : Str.strip l (l +:+ s) = Some s.
Proof.
  induction l as [|c l IH]; [by destruct s|].
  rewrite str_app_cons. simpl. by rewrite Ascii.eqb_refl.
Qed.

Lemma str_strip_Some l s t : Str.strip l s = Some t → s = l +:+ t.
Proof.
  revert s. induction l as [|c l IH]; intros s H.
  - destruct s; simpl in H; by simplify_eq.
  - destruct s as [|b s]; simpl in H; [done|].
    destruct (Ascii.eqb c b) eqn:E; [|done].
    apply Ascii.eqb_eq in E as ->. rewrite str_app_cons. f_equal. by apply IH.
Qed.

Lemma str_all_app p s t :
  Str.all p (s +:+ t) = Str.all p s && Str.all p t.
Proof.
  induction s as [|c s IH]; [done|].
  rewrite str_app_cons. simpl. rewrite IH. by rewrite andb_assoc.
Qed.

End StrFacts.

(* ===================================================================== *)
(** * The matcher on character classes                                    *)
(* ===================================================================== *)

Section ClassLoops.
Import regexp.
Variables (n : nat) (p : ascii → bool).
Implicit Types (s w : string) (caps m : submatches) (k : cont).

Local Abbreviation step := (backtrack n (CharClass p)).

(** Where the class stops, the loop leaves at once. *)
Lemma star_class_stop fuel s caps k :
  Str.stops p s = true → star step fuel s caps k = k s caps.
Proof.
  intros Hs. destruct fuel as [|fuel]; [done|]. simpl.
  destruct s as [|c s]; [done|]. simpl in Hs.
  apply negb_true_iff in Hs. by rewrite Hs.
Qed.

(** Greedy: when the continuation accepts what follows the longest run
    of the class, that is the match. *)
Lemma star_class_longest w s caps k m fuel :
  Str.all p w = true → Str.stops p s = true →
  (String.length (w +:+ s) ≤ fuel)%nat →
  k s caps = Some m →
  star step fuel (w +:+ s) caps k = Some m.
Proof.
  intros Hw Hs. revert fuel.
  induction w as [|c w IH]; intros fuel Hfuel Hk.
  - rewrite str_app_nil_l, star_class_stop; done.
  - rewrite str_app_cons in *. simpl in Hw, Hfuel.
    apply andb_true_iff in Hw as [Hc Hw].
    destruct fuel as [|fuel]; [lia|]. simpl. rewrite Hc.
    destruct (Nat.ltb_spec (String.length (w +:+ s))
                (S (String.length (w +:+ s)))); [|lia].
    rewrite IH; [done..|lia|done].
Qed.

(** Backing off by one: when the continuation rejects what follows the
    longest run but accepts one byte earlier, that is the match. *)
Lemma star_class_backoff w c s caps k m fuel :
  Str.all p w = true → p c = true → Str.stops p s = true →
  (String.length (w +:+ String c s) ≤ fuel)%nat →
  k s caps = None → k (String c s) caps = Some m →
  star step fuel (w +:+ String c s) caps k = Some m.
Proof.
  intros Hw Hc Hs. revert fuel.
  induction w as [|b w IH]; intros fuel Hfuel Hno Hk.
  - rewrite str_app_nil_l in *. simpl in Hfuel.
    destruct fuel as [|fuel]; [lia|]. simpl. rewrite Hc.
    destruct (Nat.ltb_spec (String.length s) (S (String.length s))); [|lia].
    by rewrite star_class_stop, Hno.
  - rewrite str_app_cons in *. simpl in Hw, Hfuel.
    apply andb_true_iff in Hw as [Hb Hw].
    destruct fuel as [|fuel]; [lia|]. simpl. rewrite Hb.
    destruct (Nat.ltb_spec (String.length (w +:+ String c s))
                (S (String.length (w +:+ String c s)))); [|lia].
    rewrite IH; [done..|lia|done|done].
Qed.

Lemma plus_class_longest w s caps k m :
  w ≠ "" → Str.all p w = true → Str.stops p s = true →
  k s caps = Some m →
  backtrack n (Plus (CharClass p)) (w +:+ s) caps k = Some m.
Proof.
  intros Hne Hw Hs Hk. destruct w as [|c w]; [done|].
  rewrite str_app_cons. simpl in Hw |- *.
  apply andb_true_iff in Hw as [-> Hw].
  by apply star_class_longest.
Qed.

Lemma plus_class_backoff w c s caps k m :
  w ≠ "" → Str.all p w = true → p c = true → Str.stops p s = true →
  k s caps = None → k (String c s) caps = Some m →
  backtrack n (Plus (CharClass p)) (w +:+ String c s) caps k = Some m.
Proof.
  intros Hne Hw Hc Hs Hno Hk. destruct w as [|b w]; [done|].
  rewrite str_app_cons. simpl in Hw |- *.
  apply andb_true_iff in Hw as [-> Hw].
  by apply star_class_backoff.
Qed.

End ClassLoops.

(* ===================================================================== *)
(** * The matcher finds only what the pattern describes                   *)
(* ===================================================================== *)

Section Sound.
Import regexp pattern.
Variable n : nat.
Implicit Types (r : Regexp) (s : string) (caps m : submatches) (k : cont).

Lemma star_sound (step : matcher) (R : string → string → Prop) :
  (∀ s caps k m, step s caps k = Some m →
                 ∃ s' caps', R s s' ∧ k s' caps' = Some m) →
  ∀ fuel s caps k m, star step fuel s caps k = Some m →
    ∃ j s' caps', iter R j s s' ∧ k s' caps' = Some m.
Proof.
  intros Hstep fuel. induction fuel as [|fuel IH]; intros s caps k m H.
  - exists O, s, caps. done.
  - simpl in H.
    destruct (step s caps _) as [m'|] eqn:E.
    + simplify_eq. apply Hstep in E as (t & caps' & HR & Hk).
      destruct (String.length t <? String.length s)%nat; [|done].
      apply IH in Hk as (j & s' & caps'' & Hit & Hk).
      exists (S j), s', caps''. split; [|done]. exists t. done.
    + exists O, s, caps. done.
Qed.

Theorem backtrack_sound r : ∀ s caps k m,
  backtrack n r s caps k = Some m →
  ∃ s' caps', denote n r s s' ∧ k s' caps' = Some m.
Proof.
  induction r as [| l | p | | | i r IH | r IH | r IH | r IH | r IH
                 | r1 IH1 r2 IH2]; intros s caps k m H; simpl in H.
  - exists s, caps. done.
  - destruct (Str.strip l s) as [t|] eqn:E; [|done].
    apply str_strip_Some in E. exists t, caps. done.
  - destruct s as [|c t]; [done|]. destruct (p c) eqn:E; [|done].
    exists t, caps. split; [|done]. exists c. done.
  - destruct (Nat.eqb_spec (String.length s) n); [|done].
    exists s, caps. done.
  - destruct s; [|done]. exists "", caps. done.
  - apply IH in H as (s' & caps' & Hd & Hk). eauto.
  - apply IH in H as (s' & caps' & Hd & Hk). eauto.
  - apply (star_sound _ _ IH) in H as (j & s' & caps' & Hit & Hk).
    exists s', caps'. split; [|done]. exists j. done.
  - apply IH in H as (t & caps' & Hd & Hk).
    apply (star_sound _ _ IH) in Hk as (j & s' & caps'' & Hit & Hk).
    exists s', caps''. split; [|done]. exists t. eauto.
  - destruct (backtrack n r s caps k) as [m'|] eqn:E.
    + simplify_eq. apply IH in E as (s' & caps' & Hd & Hk).
      exists s', caps'. split; [by left|done].
    + exists s, caps. split; [by right|done].
  - apply IH1 in H as (t & caps' & Hd1 & Hk).
    apply IH2 in Hk as (s' & caps'' & Hd2 & Hk).
    exists s', caps''. split; [|done]. exists t. done.
Qed.
End Sound.

(* ===================================================================== *)
(** * The provider's pattern, read declaratively                          *)
(* ===================================================================== *)

Section Inversion.
Import regexp pattern universe.
Variable n : nat.

Lemma iter_class p j s s' :
  iter (denote n (CharClass p)) j s s' →
  ∃ w, s = w +:+ s' ∧ Str.all p w = true.
Proof.
  revert s. induction j as [|j IH]; intros s H; simpl in H.
  - subst. exists "". done.
  - destruct H as (t & (c & Hc & ->) & Hit).
    apply IH in Hit as (w & -> & Hw).
    exists (String c w). split; [done|]. simpl. by rewrite Hc, Hw.
Qed.

Lemma denote_plus_class p s s' :
  denote n (Plus (CharClass p)) s s' →
  ∃ w, w ≠ "" ∧ Str.all p w = true ∧ s = w +:+ s'.
Proof.
  intros (t & (c & Hc & ->) & j & Hit).
  apply iter_class in Hit as (w & -> & Hw).
  exists (String c w). split; [done|]. split; [|done].
  simpl. by rewrite Hc, Hw.
Qed.

Lemma denote_star_class p s s' :
  denote n (Star (CharClass p)) s s' →
  ∃ w, Str.all p w = true ∧ s = w +:+ s'.
Proof. intros (j & Hit). apply iter_class in Hit as (w & -> & Hw). eauto. Qed.

Lemma denote_versionSuffix s s' :
  denote n versionSuffix s s' →
  ∃ v, version v ∧ s = "-" +:+ v +:+ s'.
Proof.
  intros (u & -> & u1 & Ha & Hrest).
  apply denote_plus_class in Ha as (a & Hane & Ha & ->).
  destruct Hrest as [(u2 & -> & u3 & Hb & Hrest)| ->].
  - apply denote_plus_class in Hb as (b & Hbne & Hb & ->).
    destruct Hrest as [(u4 & -> & Hc)| ->].
    + apply denote_plus_class in Hc as (c & Hcne & Hc & ->).
      exists (a +:+ "." +:+ b +:+ "." +:+ c). split.
      * exists a. split; [done|]. right. exists b. split; [done|].
        right. exists c. done.
      * by rewrite !str_app_assoc.
    + exists (a +:+ "." +:+ b). split.
      * exists a. split; [done|]. right. exists b. split; [done|]. by left.
      * by rewrite !str_app_assoc.
  - exists a. split; [|done]. exists a. split; [done|]. by left.
Qed.

Lemma denote_preSuffix s s' :
  denote n preSuffix s s' →
  ∃ d, Str.all digit d = true ∧ s = "-pre" +:+ d +:+ s'.
Proof.
  intros (u & -> & Hd). apply denote_star_class in Hd as (d & Hd & ->). eauto.
Qed.

Lemma denote_providerNameRe s s' :
  denote n providerNameRe s s' → providerBinary s.
Proof.
  intros (t0 & [-> _] & t1 & -> & t2 & Hname & t3 & Hver & t4 & Hpre
          & Hs' & Ht4).
  apply denote_plus_class in Hname as (name & Hne & Hname & ->).
  exists name.
  destruct Hver as [Hver|Hver]; [apply denote_versionSuffix in Hver
    as (v & Hv & Hver)|];
  (destruct Hpre as [Hpre|Hpre]; [apply denote_preSuffix in Hpre
    as (d & Hd & Hpre)|]); subst.
  - exists ("-" +:+ v), ("-pre" +:+ d). rewrite !str_app_nil_r.
    rewrite !str_app_assoc. split_and!; eauto.
  - exists ("-" +:+ v), "". rewrite !str_app_nil_r.
    rewrite ?str_app_assoc. split_and!; eauto.
  - exists "", ("-pre" +:+ d). rewrite !str_app_nil_r.
    split_and!; eauto.
  - exists "", "". split_and!; eauto.
Qed.

Lemma digit_not_dash c : digit c = true → Ascii.eqb "-" c = false.
Proof.
  intros H. destruct (Ascii.eqb_spec "-" c) as [<-|]; [|done].
  by vm_compute in H.
Qed.

End Inversion.

(* ===================================================================== *)
(** * The provider's pattern, as the matcher runs it                      *)
(* ===================================================================== *)

Section Find.
Import regexp pattern universe.

Lemma matchAt_anchored n s :
  String.length s ≠ n → matchAt providerNameRe n s = None.
Proof.
  intros H. unfold matchAt, providerNameRe. simpl.
  by destruct (Nat.eqb_spec (String.length s) n).
Qed.

Lemma search_unfold re n s :
  search re n s
  = match matchAt re n s with
    | Some m => Some m
    | None => match s with "" => None | String _ s' => search re n s' end
    end.
Proof. by destruct s. Qed.

Lemma search_anchored n s :
  (String.length s < n)%nat → search providerNameRe n s = None.
Proof.
  induction s as [|c s IH]; intros H; rewrite search_unfold;
    rewrite matchAt_anchored by lia; [done|].
  apply IH. simpl in H. lia.
Qed.

Lemma search_providerNameRe b :
  search providerNameRe (String.length b) b
  = matchAt providerNameRe (String.length b) b.
Proof.
  rewrite search_unfold. destruct (matchAt _ _ _); [done|].
  destruct b as [|c b]; [done|]. apply search_anchored. simpl. lia.
Qed.

Lemma find_none b :
  ¬ providerBinary b → FindStringSubmatch providerNameRe b = [].
Proof.
  intros Hno. unfold FindStringSubmatch. rewrite search_providerNameRe.
  destruct (matchAt _ _ _) as [m|] eqn:E; [|done].
  apply backtrack_sound in E as (s' & caps' & Hd & _).
  destruct Hno. by eapply denote_providerNameRe.
Qed.

Lemma quest_taken n r s caps k m :
  backtrack n r s caps k = Some m →
  backtrack n (Quest r) s caps k = Some m.
Proof. intros H. simpl. by rewrite H. Qed.

Lemma literal_taken n l r s caps k :
  backtrack n (Literal l ⋅ r) (l +:+ s) caps k = backtrack n r s caps k.
Proof. simpl. by rewrite str_strip_app. Qed.

Lemma plus_class_all n p w caps k m :
  w ≠ "" → Str.all p w = true → k "" caps = Some m →
  backtrack n (Plus (CharClass p)) w caps k = Some m.
Proof.
  intros. rewrite <- (str_app_nil_r w). by apply plus_class_longest.
Qed.

Lemma stops_number a s : number a → Str.stops notDigit (a +:+ s) = true.
Proof.
  intros [Hne Ha]. destruct a as [|d a]; [done|].
  simpl in Ha. apply andb_true_iff in Ha as [Hd _].
  rewrite str_app_cons. simpl. unfold notDigit. by rewrite Hd.
Qed.

(** The pattern up to the name, on a binary name with the prefix. *)
Lemma backtrack_prefix rest caps k :
  backtrack (String.length ("terraform-provider-" +:+ rest)) providerNameRe
    ("terraform-provider-" +:+ rest) caps k
  = backtrack (String.length ("terraform-provider-" +:+ rest))
      (Capture 1 (Plus (CharClass notDigit)) ⋅
       Quest (NonCapture versionSuffix) ⋅
       Quest (NonCapture preSuffix) ⋅ EndText)
      rest caps k.
Proof.
  unfold providerNameRe.
  change (backtrack ?n (BeginText ⋅ ?r) ?s caps k)
    with (if (String.length s =? n)%nat then backtrack n r s caps k
          else None).
  rewrite Nat.eqb_refl. by rewrite literal_taken.
Qed.

(** After the name: nothing is left. *)
Lemma tail_end n caps k :
  backtrack n (Quest (NonCapture versionSuffix) ⋅
               Quest (NonCapture preSuffix) ⋅ EndText) "" caps k
  = k "" caps.
Proof. reflexivity. Qed.

(** After the name: a digit can start none of the suffixes. *)
Lemma tail_digit n d s caps k :
  digit d = true →
  backtrack n (Quest (NonCapture versionSuffix) ⋅
               Quest (NonCapture preSuffix) ⋅ EndText)
    (String d s) caps k = None.
Proof.
  intros Hd. cbn [backtrack Str.strip versionSuffix preSuffix].
  by rewrite (digit_not_dash _ Hd).
Qed.

(** After the name: a full three-component version, then the end. *)
Lemma tail_version n maj min pat caps k m :
  number maj → number min → number pat →
  k "" (<[2%nat := Some (maj +:+ "." +:+ min +:+ "." +:+ pat)]> caps)
  = Some m →
  backtrack n (Quest (NonCapture versionSuffix) ⋅
               Quest (NonCapture preSuffix) ⋅ EndText)
    ("-" +:+ maj +:+ "." +:+ min +:+ "." +:+ pat) caps k
  = Some m.
Proof.
  intros [Hmaj1 Hmaj] [Hmin1 Hmin] [Hpat1 Hpat].
  set (v := maj +:+ "." +:+ min +:+ "." +:+ pat). intros Hk.
  - change (backtrack n (?r1 ⋅ ?r2) ?s caps k)
      with (backtrack n r1 s caps (λ s' caps', backtrack n r2 s' caps' k)).
    apply quest_taken.
    change (backtrack n (NonCapture ?r) ?s ?c ?k') with (backtrack n r s c k').
    unfold versionSuffix. rewrite literal_taken.
    change (backtrack n (Capture ?i ?r) ?s ?c ?k')
      with (backtrack n r s c (λ s' caps',
              k' s' (<[i := Some (Str.take (String.length s
                                            - String.length s') s)]> caps'))).
    change (backtrack n (?r1 ⋅ ?r2) ?s ?c ?k')
      with (backtrack n r1 s c (λ s' caps', backtrack n r2 s' caps' k')).
    unfold v at 1. apply plus_class_longest; [done..|].
    apply quest_taken.
    change (backtrack n (NonCapture ?r) ?s ?c ?k') with (backtrack n r s c k').
    rewrite literal_taken.
    change (backtrack n (?r1 ⋅ ?r2) ?s ?c ?k')
      with (backtrack n r1 s c (λ s' caps', backtrack n r2 s' caps' k')).
    apply plus_class_longest; [done..|].
    apply quest_taken.
    change (backtrack n (NonCapture ?r) ?s ?c ?k') with (backtrack n r s c k').
    rewrite literal_taken.
    apply plus_class_all; [done..|].
    simpl. rewrite Nat.sub_0_r, str_take_length. done.
Qed.

Lemma matchAt_plain name :
  name ≠ "" → Str.all notDigit name = true →
  let b := "terraform-provider-" +:+ name in
  matchAt providerNameRe (String.length b) b
  = Some [Some b; Some name; None].
Proof.
  intros Hne Hname b. unfold matchAt, b. rewrite backtrack_prefix.
  change (backtrack ?n (?r1 ⋅ ?r2) ?s ?c ?k')
    with (backtrack n r1 s c (λ s' caps', backtrack n r2 s' caps' k')).
  change (backtrack ?n (Capture ?i ?r) ?s ?c ?k')
    with (backtrack n r s c (λ s' caps',
            k' s' (<[i := Some (Str.take (String.length s
                                          - String.length s') s)]> caps'))).
  apply plus_class_all; [done..|].
  rewrite tail_end. change (String.length "") with O.
  by rewrite !Nat.sub_0_r, !str_take_length.
Qed.

Lemma matchAt_versioned name maj min pat :
  name ≠ "" → Str.all notDigit name = true →
  number maj → number min → number pat →
  let v := maj +:+ "." +:+ min +:+ "." +:+ pat in
  let b := "terraform-provider-" +:+ name +:+ "-" +:+ v in
  matchAt providerNameRe (String.length b) b
  = Some [Some b; Some name; Some v].
Proof.
  intros Hne Hname Hmaj Hmin Hpat v b. unfold matchAt, b.
  rewrite backtrack_prefix.
  change (backtrack ?n (?r1 ⋅ ?r2) ?s ?c ?k')
    with (backtrack n r1 s c (λ s' caps', backtrack n r2 s' caps' k')).
  change (backtrack ?n (Capture ?i ?r) ?s ?c ?k')
    with (backtrack n r s c (λ s' caps',
            k' s' (<[i := Some (Str.take (String.length s
                                          - String.length s') s)]> caps'))).
  apply (plus_class_backoff _ _ name "-" v); [done..| | |].
  - by apply stops_number.
  - destruct Hmaj as [Hmaj1 Hmaj]. unfold v.
    destruct maj as [|d maj]; [done|]. rewrite str_app_cons.
    apply tail_digit. simpl in Hmaj. by apply andb_true_iff in Hmaj as [? _].
  - change (String "-" v) with ("-" +:+ v).
    rewrite (str_take_consumed name ("-" +:+ v)).
    apply tail_version; [done..|].
    cbv beta. change (String.length "") with O.
    by rewrite Nat.sub_0_r, str_take_length.
Qed.

Lemma find_plain name :
  name ≠ "" → Str.all notDigit name = true →
  FindStringSubmatch providerNameRe ("terraform-provider-" +:+ name)
  = ["terraform-provider-" +:+ name; name; ""].
Proof.
  intros Hne Hname. unfold FindStringSubmatch.
  by rewrite search_providerNameRe, matchAt_plain.
Qed.

Lemma find_versioned name maj min pat :
  name ≠ "" → Str.all notDigit name = true →
  number maj → number min → number pat →
  let v := maj +:+ "." +:+ min +:+ "." +:+ pat in
  FindStringSubmatch providerNameRe
    ("terraform-provider-" +:+ name +:+ "-" +:+ v)
  = ["terraform-provider-" +:+ name +:+ "-" +:+ v; name; v].
Proof.
  intros Hne Hname Hmaj Hmin Hpat v. subst v. unfold FindStringSubmatch.
  by rewrite search_providerNameRe, matchAt_versioned.
Qed.

End Find.

(* ===================================================================== *)
(** * The matcher finds whatever the pattern describes                    *)
(* ===================================================================== *)

Section Complete.
Import regexp pattern.
Variable n : nat.
Implicit Types (r : Regexp) (s : string) (caps m : submatches) (k : cont).

Lemma str_app_same_length w s :
  String.length (w +:+ s) = String.length s → w = "".
Proof. rewrite str_length_app. destruct w; [done|simpl; lia]. Qed.

Lemma iter_suffix (R : string → string → Prop) :
  (∀ s s', R s s' → ∃ w, s = w +:+ s') →
  ∀ j s s', iter R j s s' → ∃ w, s = w +:+ s'.
Proof.
  intros HR j. induction j as [|j IH]; intros s s' H; simpl in H.
  - subst. by exists "".
  - destruct H as (t & (w1 & ->)%HR & (w2 & ->)%IH).
    exists (w1 +:+ w2). by rewrite str_app_assoc.
Qed.

Lemma denote_suffix r : ∀ s s', denote n r s s' → ∃ w, s = w +:+ s'.
Proof.
  induction r as [| l | p | | | i r IH | r IH | r IH | r IH | r IH
                 | r1 IH1 r2 IH2]; intros s s' H; simpl in H.
  - subst. by exists "".
  - by exists l.
  - destruct H as (c & _ & ->). by exists (String c "").
  - destruct H as [-> _]. by exists "".
  - destruct H as [-> _]. by exists "".
  - by apply IH.
  - by apply IH.
  - destruct H as [j H]. by apply (iter_suffix _ IH) in H.
  - destruct H as (t & (w1 & ->)%IH & j & (w2 & ->)%(iter_suffix _ IH)).
    exists (w1 +:+ w2). by rewrite str_app_assoc.
  - destruct H as [H| ->]; [by apply IH|by exists ""].
  - destruct H as (t & (w1 & ->)%IH1 & (w2 & ->)%IH2).
    exists (w1 +:+ w2). by rewrite str_app_assoc.
Qed.

Lemma star_complete (step : matcher) (R : string → string → Prop) k s' :
  (∀ s t, R s t → ∃ w, s = w +:+ t) →
  (∀ s t k', R s t → accepts k' t → ∀ caps, is_Some (step s caps k')) →
  accepts k s' →
  ∀ fuel j s, (String.length s ≤ fuel)%nat → iter R j s s' →
    ∀ caps, is_Some (star step fuel s caps k).
Proof.
  intros Hsuf Hstep Hk fuel.
  induction fuel as [|fuel IHf]; intros j; induction j as [|j IHj];
    intros s Hlen Hit caps; simpl in Hit |- *.
  - subst s'. apply Hk.
  - destruct Hit as (t & HR & Hit).
    destruct s; [|simpl in Hlen; lia].
    apply Hsuf in HR as (w & Hw). destruct w; [|done].
    rewrite str_app_nil_l in Hw. subst t. by apply IHj.
  - subst s'. destruct (step s caps _); [done|apply Hk].
  - destruct Hit as (t & HR & Hit).
    destruct (Hsuf _ _ HR) as (w & ->).
    destruct w as [|c w].
    + rewrite str_app_nil_l in *.
      specialize (IHj t Hlen Hit caps). by simpl in IHj.
    + assert (is_Some (step (String c w +:+ t) caps
               (λ s'0 caps',
                  if (String.length s'0 <? String.length (String c w +:+ t))%nat
                  then star step fuel s'0 caps' k else None))) as [m ->];
        [|done].
      apply (Hstep _ t); [done|]. intros caps'.
      rewrite str_app_cons in Hlen |- *. simpl in Hlen |- *.
      rewrite str_length_app in Hlen |- *.
      destruct (Nat.ltb_spec (String.length t)
                  (S (String.length w + String.length t))); [|lia].
      apply (IHf j); [lia|done].
Qed.

Theorem backtrack_complete r : ∀ s s' k,
  denote n r s s' → accepts k s' → ∀ caps, is_Some (backtrack n r s caps k).
Proof.
  induction r as [| l | p | | | i r IH | r IH | r IH | r IH | r IH
                 | r1 IH1 r2 IH2]; intros s s' k H Hk caps; simpl in H |- *.
  - subst. apply Hk.
  - subst. rewrite str_strip_app. apply Hk.
  - destruct H as (c & Hc & ->). rewrite Hc. apply Hk.
  - destruct H as [-> ->]. rewrite Nat.eqb_refl. apply Hk.
  - destruct H as [-> ->]. apply Hk.
  - apply (IH _ s'); [done|]. intros caps'. apply Hk.
  - by apply (IH _ s').
  - destruct H as [j H].
    by apply (star_complete _ (denote n r) k s' (denote_suffix r)
                (λ s t k', IH s t k') Hk _ j).
  - destruct H as (t & Hr & j & Hit). apply (IH _ t); [done|].
    intros caps'.
    by apply (star_complete _ (denote n r) k s' (denote_suffix r)
                (λ s t k', IH s t k') Hk _ j).
  - destruct H as [H| ->].
    + by destruct (IH _ _ k H Hk caps) as [m ->].
    + destruct (backtrack n r s caps k); [done|apply Hk].
  - destruct H as (t & H1 & H2). apply (IH1 _ t); [done|].
    intros caps'. by apply (IH2 _ s').
Qed.
End Complete.

(* ===================================================================== *)
(** * The number of submatches                                            *)
(* ===================================================================== *)

Section Length.
Import regexp pattern.
Variables (n L : nat).
Implicit Types (r : Regexp) (s : string) (caps m : submatches) (k : cont).
Local Abbreviation keeps := (pattern.keeps L).

Lemma star_length (step : matcher) k :
  (∀ k' s caps m, keeps k' → step s caps k' = Some m →
                  length caps = L → length m = L) →
  keeps k →
  ∀ fuel s caps m, star step fuel s caps k = Some m →
                   length caps = L → length m = L.
Proof.
  intros Hstep Hk fuel. induction fuel as [|fuel IH]; intros s caps m H Hlen.
  - by apply (Hk s caps).
  - simpl in H. destruct (step s caps _) as [m'|] eqn:E.
    + simplify_eq. eapply Hstep; [|exact E|done].
      intros s1 caps1 m1 H1 Hlen1.
      destruct (String.length s1 <? String.length s)%nat; [|done].
      by apply (IH s1 caps1).
    + by apply (Hk s caps).
Qed.

Lemma backtrack_length r : ∀ k s caps m,
  keeps k → backtrack n r s caps k = Some m → length caps = L → length m = L.
Proof.
  induction r as [| l | p | | | i r IH | r IH | r IH | r IH | r IH
                 | r1 IH1 r2 IH2]; intros k s caps m Hk H Hlen; simpl in H.
  - by apply (Hk s caps).
  - destruct (Str.strip l s) as [t|]; [|done]. by apply (Hk t caps).
  - destruct s as [|c t]; [done|]. destruct (p c); [|done].
    by apply (Hk t caps).
  - destruct (String.length s =? n)%nat; [|done]. by apply (Hk s caps).
  - destruct s; [|done]. by apply (Hk "" caps).
  - eapply IH; [|exact H|done].
    intros s1 caps1 m1 H1 Hlen1. apply (Hk s1 _ m1 H1).
    by rewrite length_insert.
  - by apply (IH k s caps).
  - eapply star_length; [|exact Hk|exact H|done].
    intros k' s1 caps1 m1 Hk'. by apply IH.
  - eapply IH; [|exact H|done].
    intros s1 caps1 m1 H1 Hlen1.
    eapply star_length; [|exact Hk|exact H1|done].
    intros k' s2 caps2 m2 Hk'. by apply IH.
  - destruct (backtrack n r s caps k) as [m'|] eqn:E.
    + simplify_eq. by apply (IH k s caps).
    + by apply (Hk s caps).
  - eapply IH1; [|exact H|done].
    intros s1 caps1 m1 H1 Hlen1. by apply (IH2 k s1 caps1).
Qed.
End Length.

(* ===================================================================== *)
(** * The binary names of the pattern, exactly                            *)
(* ===================================================================== *)

Section Intro.
Import regexp pattern universe.
Variable n : nat.

Lemma iter_class_intro p w s :
  Str.all p w = true → ∃ j, iter (denote n (CharClass p)) j (w +:+ s) s.
Proof.
  induction w as [|c w IH]; intros Hw.
  - by exists O.
  - simpl in Hw. apply andb_true_iff in Hw as [Hc Hw].
    destruct (IH Hw) as [j Hj]. exists (S j), (w +:+ s).
    split; [|done]. by exists c.
Qed.

Lemma denote_plus_class_intro p w s :
  w ≠ "" → Str.all p w = true →
  denote n (Plus (CharClass p)) (w +:+ s) s.
Proof.
  intros Hne Hw. destruct w as [|c w]; [done|].
  simpl in Hw. apply andb_true_iff in Hw as [Hc Hw].
  exists (w +:+ s). split; [by exists c|]. by apply iter_class_intro.
Qed.

Lemma denote_versionSuffix_intro v s :
  version v → denote n versionSuffix ("-" +:+ v +:+ s) s.
Proof.
  intros (a & [Hane Ha] & Hv). exists (v +:+ s). split; [done|].
  destruct Hv as [->|(b & [Hbne Hb] & Hv)].
  { exists s. split; [by apply denote_plus_class_intro|by right]. }
  destruct Hv as [->|(c & [Hcne Hc] & ->)]; rewrite !str_app_assoc.
  - exists ("." +:+ b +:+ s). split; [by apply denote_plus_class_intro|].
    left. exists (b +:+ s). split; [done|].
    exists s. split; [by apply denote_plus_class_intro|by right].
  - exists ("." +:+ b +:+ "." +:+ c +:+ s).
    split; [by apply denote_plus_class_intro|].
    left. exists (b +:+ "." +:+ c +:+ s). split; [done|].
    exists ("." +:+ c +:+ s). split; [by apply denote_plus_class_intro|].
    left. exists (c +:+ s). split; [done|]. by apply denote_plus_class_intro.
Qed.

Lemma denote_preSuffix_intro d s :
  Str.all digit d = true → denote n preSuffix ("-pre" +:+ d +:+ s) s.
Proof.
  intros Hd. exists (d +:+ s). split; [done|]. by apply iter_class_intro.
Qed.
End Intro.

Section Exact.
Import regexp pattern universe.

Lemma providerBinary_denote b :
  providerBinary b → denote (String.length b) providerNameRe b "".
Proof.
  intros (name & ver & pre & -> & Hne & Hname & Hver & Hpre).
  set (n := String.length _).
  exists ("terraform-provider-" +:+ name +:+ ver +:+ pre). split; [done|].
  exists (name +:+ ver +:+ pre). split; [done|].
  exists (ver +:+ pre). split; [by apply denote_plus_class_intro|].
  exists pre. split.
  { destruct Hver as [->|(v & Hv & ->)]; [by right|left].
    rewrite str_app_assoc. by apply denote_versionSuffix_intro. }
  exists "". split; [|done].
  destruct Hpre as [->|(d & Hd & ->)]; [by right|left].
  rewrite <- (str_app_nil_r ("-pre" +:+ d)), str_app_assoc.
  by apply denote_preSuffix_intro.
Qed.

(** The matcher finds a match exactly on the binary names that the
    pattern describes, and then returns the whole match and the two
    submatches. *)
Lemma find_some_iff b :
  length (FindStringSubmatch providerNameRe b) = 3%nat ↔ providerBinary b.
Proof.
  unfold FindStringSubmatch. rewrite search_providerNameRe. split.
  - destruct (matchAt _ _ _) as [m|] eqn:E; [|done]. intros _.
    apply backtrack_sound in E as (s' & caps' & Hd & _).
    by eapply denote_providerNameRe.
  - intros Hb%providerBinary_denote.
    destruct (backtrack_complete _ _ _ _
                (λ s' caps, Some (<[O := Some (Str.take
                   (String.length b - String.length s') b)]> caps)) Hb
                ltac:(by intros ?) [None; None; None]) as [m Hm].
    unfold matchAt. change (replicate _ _) with [None; None; @None string].
    rewrite Hm. rewrite length_fmap.
    eapply (backtrack_length _ 3); [|exact Hm|done].
    intros s1 caps1 m1 H1 Hlen1. simplify_eq. by rewrite length_insert.
Qed.
End Exact.

(* ===================================================================== *)
(** * Identity resolution                                                 *)
(* ===================================================================== *)

Section Identity.
Import regexp pattern universe.
Implicit Types (environ : gmap string string) (name : string).

(** C4. Whenever the override variable TERRAFORM_UNIVERSE_PROVIDERNAME is
    set, to the empty string included, resolution returns its value,
    whatever the name of the binary. *)
Theorem override_wins environ (arg0 : string) name :
  os.LookupEnv environ EnvProviderNameVar = Some name →
  getProviderNameFromBinaryOrEnvironment environ arg0 = name.
Proof.
  intros H. unfold getProviderNameFromBinaryOrEnvironment. by rewrite H.
Qed.

(** C5. Without an override, a binary named terraform-provider-<name>,
    <name> being one or more non-digit characters, resolves to <name>;
    so does terraform-provider-<name>-<major>.<minor>.<patch>, the
    version suffix stripped. *)
Theorem name_from_binary environ (arg0 : string) name :
  os.LookupEnv environ EnvProviderNameVar = None →
  name ≠ "" → Str.all notDigit name = true →
  (filepath.Base arg0 = "terraform-provider-" +:+ name
   ∨ ∃ major minor patch,
       number major ∧ number minor ∧ number patch ∧
       filepath.Base arg0
       = "terraform-provider-" +:+ name +:+ "-" +:+
         major +:+ "." +:+ minor +:+ "." +:+ patch) →
  getProviderNameFromBinaryOrEnvironment environ arg0 = name.
Proof.
  intros Henv Hne Hname Hbin.
  unfold getProviderNameFromBinaryOrEnvironment. rewrite Henv.
  destruct Hbin as [->|(major & minor & patch & H1 & H2 & H3 & ->)].
  - by rewrite find_plain.
  - by rewrite find_versioned.
Qed.

(** C6. Without an override, a binary whose name the pattern does not
    describe (debug.test, say) resolves to the default identity; and
    resolution has no error path: it returns a name for every
    environment and every binary. *)
Theorem default_when_no_match environ (arg0 : string) :
  (os.LookupEnv environ EnvProviderNameVar = None →
   ¬ providerBinary (filepath.Base arg0) →
   getProviderNameFromBinaryOrEnvironment environ arg0
   = DefaultProviderName)
  ∧ ∃ name, getProviderNameFromBinaryOrEnvironment environ arg0 = name.
Proof.
  split; [|by eexists].
  intros Henv Hno. unfold getProviderNameFromBinaryOrEnvironment.
  rewrite Henv. by rewrite find_none.
Qed.

End Identity.

Lemma override_wins_witness :
  os.LookupEnv {[ universe.EnvProviderNameVar := "" ]}
    universe.EnvProviderNameVar = Some ""
  ∧ universe.getProviderNameFromBinaryOrEnvironment
      {[ universe.EnvProviderNameVar := "" ]} "terraform-provider-widget"
    = "".
Proof.
  split; [reflexivity|].
  apply (override_wins {[ universe.EnvProviderNameVar := "" ]}
           "terraform-provider-widget" "").
  reflexivity.
Defined.

Lemma name_from_binary_witness :
  filepath.Base "/usr/local/bin/terraform-provider-widget-1.2.3"
  = "terraform-provider-widget-1.2.3"
  ∧ universe.getProviderNameFromBinaryOrEnvironment ∅
      "/usr/local/bin/terraform-provider-widget-1.2.3"
    = "widget".
Proof.
  split; [reflexivity|].
  apply (name_from_binary ∅
           "/usr/local/bin/terraform-provider-widget-1.2.3" "widget").
  - reflexivity.
  - discriminate.
  - reflexivity.
  - right. exists "1", "2", "3".
    repeat split; first [discriminate | reflexivity].
Defined.

Lemma default_when_no_match_witness :
  ¬ pattern.providerBinary (filepath.Base "debug.test")
  ∧ universe.getProviderNameFromBinaryOrEnvironment ∅ "debug.test"
    = "universe".
Proof.
  assert (¬ pattern.providerBinary (filepath.Base "debug.test")) as Hno.
  { intros (name & ver & pre & H & _). discriminate H. }
  split; [exact Hno|].
  apply (proj1 (default_when_no_match ∅ "debug.test")); [reflexivity|exact Hno].
Defined.

(* ===================================================================== *)
(** * The resource type names                                             *)
(* ===================================================================== *)

Section Prefixes.

Lemma take_is_prefix p x :
  Str.take (String.length p) x = p → ∃ t, x = p +:+ t.
Proof.
  revert x. induction p as [|c p IH]; intros x H; [by exists x|].
  destruct x as [|b x]; [done|]. simpl in H. simplify_eq.
  destruct (IH x) as [t Ht]; [done|]. exists t.
  rewrite str_app_cons. by f_equal.
Qed.

Lemma HasPrefix_true x p :
  strings.HasPrefix x p = true → ∃ t, x = p +:+ t.
Proof.
  unfold strings.HasPrefix. intros [_ H]%andb_true_iff.
  apply String.eqb_eq in H. by apply take_is_prefix.
Qed.

Lemma HasPrefix_app p t : strings.HasPrefix (p +:+ t) p = true.
Proof.
  unfold strings.HasPrefix. rewrite str_take_app, String.eqb_refl.
  rewrite str_length_app, andb_true_r. apply Nat.leb_le. lia.
Qed.

Lemma rtn_prefixed prefix x : ∃ t, universe.rtn prefix x = prefix +:+ t.
Proof.
  unfold universe.rtn. destruct (strings.HasPrefix x prefix) eqn:E; simpl.
  - by apply HasPrefix_true.
  - by exists x.
Qed.

(** The loop over the tokens, as a set of names all mapped to [true]. *)
Lemma insert_all (f : string → string) (l : list string) (X : gset string) :
  foldl (λ (result : gmap string bool) x, <[ f x := true ]> result)
    (gset_to_gmap true X) l
  = gset_to_gmap true (X ∪ list_to_set (f <$> l)).
Proof.
  revert X. induction l as [|x l IH]; intros X; simpl.
  - by rewrite (right_id_L ∅ (∪)).
  - rewrite <- gset_to_gmap_union_singleton, IH. f_equal.
    by rewrite (comm_L (∪) {[ f x ]} X), <- (assoc_L (∪)).
Qed.

End Prefixes.

Section ResourceTypes.
Import universe.
Context {tables : unicode.CaseTables}.
Implicit Types (environ : gmap string string) (identity names : string).

Lemma names_absent environ identity :
  os.LookupEnv environ
    ("TERRAFORM_" +:+ strings.ToUpper identity +:+ "_RESOURCETYPES") = None →
  getResourceTypeNamesFromEnvironment environ identity
  = gset_to_gmap true {[ identity ]}.
Proof.
  intros Hvar. unfold getResourceTypeNamesFromEnvironment.
  by rewrite Hvar, gset_to_gmap_singleton.
Qed.

Lemma names_present environ identity names :
  os.LookupEnv environ
    ("TERRAFORM_" +:+ strings.ToUpper identity +:+ "_RESOURCETYPES")
  = Some names →
  getResourceTypeNamesFromEnvironment environ identity
  = gset_to_gmap true
      ({[ identity ]}
       ∪ list_to_set (rtn (identity +:+ "_") <$> strings.Fields names)).
Proof.
  intros Hvar. unfold getResourceTypeNamesFromEnvironment. rewrite Hvar.
  rewrite <- gset_to_gmap_singleton. apply insert_all.
Qed.

(** C7. Whatever the identity and the environment, the set of resource
    type names contains the identity itself, enabled, and each of its
    members is the identity or begins with the identity followed by an
    underscore. *)
Theorem resource_types_namespaced environ identity :
  getResourceTypeNamesFromEnvironment environ identity !! identity
  = Some true
  ∧ ∀ x, x ∈ dom (getResourceTypeNamesFromEnvironment environ identity) →
         x = identity ∨ ∃ t, x = (identity +:+ "_") +:+ t.
Proof.
  destruct (os.LookupEnv environ
              ("TERRAFORM_" +:+ strings.ToUpper identity
               +:+ "_RESOURCETYPES")) as [names|] eqn:Hvar.
  - rewrite (names_present _ _ _ Hvar). split.
    + apply lookup_gset_to_gmap_Some. split; [set_solver|done].
    + intros x. rewrite dom_gset_to_gmap, elem_of_union,
        elem_of_singleton, elem_of_list_to_set, list_elem_of_fmap.
      intros [->|(tok & -> & _)]; [by left|right]. apply rtn_prefixed.
  - rewrite (names_absent _ _ Hvar). split.
    + apply lookup_gset_to_gmap_Some. split; [set_solver|done].
    + intros x. rewrite dom_gset_to_gmap, elem_of_singleton. by left.
Qed.

(** C8. When the resource type variable is set, the members of the set
    are the identity and, for each white-space separated token of the
    value, the token itself when it starts with the identity followed by
    an underscore, and otherwise the token with that prefix put in
    front; equal names collapse. For the identity widget and the value
    "foo widget_bar" the set is widget, widget_foo, widget_bar. *)
Theorem resource_types_from_tokens :
  (∀ environ identity names,
     os.LookupEnv environ
       ("TERRAFORM_" +:+ strings.ToUpper identity +:+ "_RESOURCETYPES")
     = Some names →
     ∀ x, x ∈ dom (getResourceTypeNamesFromEnvironment environ identity) ↔
          x = identity
          ∨ ∃ token, token ∈ strings.Fields names ∧
              x = if strings.HasPrefix token (identity +:+ "_") then token
                  else (identity +:+ "_") +:+ token)
  ∧ (∀ environ,
       os.LookupEnv environ "TERRAFORM_WIDGET_RESOURCETYPES"
       = Some "foo widget_bar" →
       dom (getResourceTypeNamesFromEnvironment environ "widget")
       = ({[ "widget"; "widget_foo"; "widget_bar" ]} : gset string)).
Proof.
  split.
  - intros environ identity names Hvar x.
    rewrite (names_present _ _ _ Hvar), dom_gset_to_gmap, elem_of_union,
      elem_of_singleton, elem_of_list_to_set, list_elem_of_fmap.
    unfold rtn. split.
    + intros [->|(token & -> & Htok)]; [by left|right].
      exists token. split; [done|]. by destruct (strings.HasPrefix _ _).
    + intros [->|(token & Htok & ->)]; [by left|right].
      exists token. split; [|done]. by destruct (strings.HasPrefix _ _).
  - intros environ Hvar.
    rewrite (names_present environ "widget" "foo widget_bar" Hvar),
      dom_gset_to_gmap.
    change (strings.Fields "foo widget_bar") with ["foo"; "widget_bar"].
    change (rtn ("widget" +:+ "_") <$> ["foo"; "widget_bar"])
      with ["widget_foo"; "widget_bar"].
    set_solver.
Qed.

(** C9. When the variable TERRAFORM_<IDENTITY>_RESOURCETYPES is absent,
    the set of resource type names is the singleton of the identity. *)
Theorem resource_types_default environ identity :
  os.LookupEnv environ
    ("TERRAFORM_" +:+ strings.ToUpper identity +:+ "_RESOURCETYPES") = None →
  getResourceTypeNamesFromEnvironment environ identity
  = {[ identity := true ]}
  ∧ dom (getResourceTypeNamesFromEnvironment environ identity)
    = ({[ identity ]} : gset string).
Proof.
  intros Hvar. rewrite (names_absent _ _ Hvar), gset_to_gmap_singleton.
  split; [done|]. apply dom_singleton_L.
Qed.

End ResourceTypes.

Lemma resource_types_namespaced_witness :
  "widget_foo"
  ∈ dom (universe.getResourceTypeNamesFromEnvironment
           (tables := unicode.Build_CaseTables id)
           {[ "TERRAFORM_WIDGET_RESOURCETYPES" := "foo widget_bar" ]}
           "widget")
  ∧ ("widget_foo" = "widget" ∨ ∃ t, "widget_foo" = ("widget" +:+ "_") +:+ t).
Proof.
  assert ("widget_foo"
          ∈ dom (universe.getResourceTypeNamesFromEnvironment
                   (tables := unicode.Build_CaseTables id)
                   {[ "TERRAFORM_WIDGET_RESOURCETYPES" := "foo widget_bar" ]}
                   "widget")) as Hin.
  { apply elem_of_dom. exists true. reflexivity. }
  split; [exact Hin|].
  exact (proj2 (resource_types_namespaced
                  (tables := unicode.Build_CaseTables id)
                  {[ "TERRAFORM_WIDGET_RESOURCETYPES" := "foo widget_bar" ]}
                  "widget") "widget_foo" Hin).
Defined.

Lemma resource_types_from_tokens_witness :
  os.LookupEnv {[ "TERRAFORM_WIDGET_RESOURCETYPES" := "foo widget_bar" ]}
    "TERRAFORM_WIDGET_RESOURCETYPES" = Some "foo widget_bar"
  ∧ dom (universe.getResourceTypeNamesFromEnvironment
           (tables := unicode.Build_CaseTables id)
           {[ "TERRAFORM_WIDGET_RESOURCETYPES" := "foo widget_bar" ]}
           "widget")
    = ({[ "widget"; "widget_foo"; "widget_bar" ]} : gset string).
Proof.
  split; [reflexivity|].
  apply (proj2 (resource_types_from_tokens
                  (tables := unicode.Build_CaseTables id))).
  reflexivity.
Defined.

Lemma resource_types_default_witness :
  os.LookupEnv ∅ "TERRAFORM_WIDGET_RESOURCETYPES" = None
  ∧ universe.getResourceTypeNamesFromEnvironment
      (tables := unicode.Build_CaseTables id) ∅ "widget"
    = {[ "widget" := true ]}.
Proof.
  split; [reflexivity|].
  apply (resource_types_default (tables := unicode.Build_CaseTables id)
           ∅ "widget").
  reflexivity.
Defined.

(* ===================================================================== *)
(** * Normalizing the provider configuration                              *)
(* ===================================================================== *)

Section Configure.
Import universe config.
Implicit Types (d : ResourceLike) (cfg : gmap string value) (e v : value).

(** The loop copies the supplied keys and leaves the others alone. *)
Lemma collect_lookup d (keys : list string) cfg (key : string) :
  foldl (λ data key,
           let '(val, ok) := GetOk d key in
           if negb ok then data else <[ key := val ]> data) cfg keys !! key
  = if decide (key ∈ keys) then
      if (GetOk d key).2 then Some (GetOk d key).1 else cfg !! key
    else cfg !! key.
Proof.
  revert cfg. induction keys as [|k keys IH]; intros cfg.
  - simpl foldl. by rewrite decide_False by apply not_elem_of_nil.
  - simpl foldl. rewrite IH. clear IH.
    destruct (decide (key = k)) as [->|Hne].
    + rewrite (decide_True (P := k ∈ k :: keys)) by (apply elem_of_cons; by left).
      destruct (GetOk d k) as [val [|]]; simpl.
      * rewrite lookup_insert_eq. by destruct (decide _).
      * by destruct (decide _).
    + assert ((let '(val, ok) := GetOk d k in
               if negb ok then cfg else <[k:=val]> cfg) !! key = cfg !! key)
        as ->.
      { destruct (GetOk d k) as [val [|]]; simpl; [|done].
        by rewrite lookup_insert_ne. }
      destruct (decide (key ∈ keys)) as [Hin|Hnin].
      * by rewrite decide_True by (apply elem_of_cons; by right).
      * rewrite decide_False; [done|].
        by intros [?|?]%elem_of_cons.
Qed.

Lemma configurationData_lookup d (key : string) :
  configurationData d !! key
  = if decide (key ∈ recognizedKeys) then
      if (GetOk d key).2 then Some (GetOk d key).1 else None
    else None.
Proof.
  unfold configurationData. rewrite collect_lookup, lookup_empty.
  by repeat destruct (_ : bool || sumbool _ _).
Qed.

Lemma configure_ok d :
  (GetOk d "environment").2 = false
  ∨ isMap (GetOk d "environment").1 = true →
  providerConfigure d = (VMap (configurationData d), None).
Proof.
  unfold providerConfigure. destruct (GetOk d "environment") as [e ok].
  simpl. by intros [-> | ->]; rewrite ?andb_false_r.
Qed.

Lemma configure_error d e :
  GetOk d "environment" = (e, true) → isMap e = false →
  providerConfigure d
  = (VNil,
     Some (Errorf
             "environment - expected map[string]interface{} bit got %#v"
             [e])).
Proof. unfold providerConfigure. by intros -> ->. Qed.

(** C1, as the code has it. Normalization returns an error exactly when
    an environment value was supplied whose dynamic type is not
    map[string]interface{}, a map of another Go type included; whenever
    environment is absent or is a map[string]interface{}, normalization
    succeeds, with no error. *)
Theorem configure_error_iff d :
  (snd (providerConfigure d) ≠ None
   ↔ ∃ e, GetOk d "environment" = (e, true) ∧ isMap e = false)
  ∧ ((GetOk d "environment").2 = false
     ∨ isMap (GetOk d "environment").1 = true →
     providerConfigure d = (VMap (configurationData d), None)).
Proof.
  split; [|apply configure_ok].
  destruct (GetOk d "environment") as [e ok] eqn:Hget.
  destruct ok; [destruct (isMap e) eqn:Hmap|].
  - rewrite configure_ok by (rewrite Hget; by right).
    split; [intros Hn; by destruct Hn|].
    intros (e' & ? & ?). simplify_eq; congruence.
  - rewrite (configure_error d e) by done. split; [|done]. eauto.
  - rewrite configure_ok by (rewrite Hget; by left).
    split; [intros Hn; by destruct Hn|].
    intros (e' & ? & ?). simplify_eq; congruence.
Qed.

(** C2, as the code has it. When an environment value is supplied and is
    not a map, the caller receives nil, and no configuration map, with
    an error whose message is formatted from the offending value. *)
Theorem configure_error_result d e :
  GetOk d "environment" = (e, true) → isMap e = false →
  providerConfigure d
  = (VNil,
     Some (Errorf
             "environment - expected map[string]interface{} bit got %#v"
             [e])).
Proof. apply configure_error. Qed.

(** An entry of the snapshot is the value that the reader supplied. *)
Lemma snapshot_entry_supplied d cfg (key : string) v :
  providerConfigure d = (VMap cfg, None) →
  cfg !! key = Some v → GetOk d key = (v, true).
Proof.
  unfold providerConfigure. intros Hcfg Hv.
  destruct (GetOk d "environment") as [e ok].
  destruct (ok && negb (isMap e)); simplify_eq.
  rewrite configurationData_lookup in Hv.
  destruct (decide _) in Hv; [|done].
  destruct (GetOk d key) as [v' [|]]; by simplify_eq/=.
Qed.

(** C3, as the code has it. In the snapshot of an accepted configuration
    an environment entry is a string-keyed map; its values are whatever
    the reader supplied. *)
Theorem environment_entry_is_map d cfg v :
  providerConfigure d = (VMap cfg, None) →
  cfg !! "environment" = Some v →
  ∃ m, v = VMap m.
Proof.
  unfold providerConfigure. intros Hcfg Hv.
  destruct (GetOk d "environment") as [e ok] eqn:Hget.
  destruct (ok && negb (isMap e)) eqn:Hbad; simplify_eq.
  rewrite configurationData_lookup, Hget in Hv.
  destruct (decide _) in Hv; [|done].
  destruct ok; simplify_eq/=.
  destruct v; simplify_eq/=. eauto.
Qed.

(** C10. The snapshot of an accepted configuration holds exactly the
    recognized keys that the reader reports as supplied, each with the
    value supplied; when only executor and script are supplied, it holds
    these two keys, and id_key and environment are absent. *)
Theorem configure_sparse d cfg :
  providerConfigure d = (VMap cfg, None) →
  (∀ key : string,
     cfg !! key
     = if decide (key ∈ recognizedKeys) then
         if (GetOk d key).2 then Some (GetOk d key).1 else None
       else None)
  ∧ ((∀ key : string, key ∈ recognizedKeys →
        ((GetOk d key).2 = true ↔ key = "executor" ∨ key = "script")) →
     dom cfg = ({[ "executor"; "script" ]} : gset string)
     ∧ cfg !! "id_key" = None ∧ cfg !! "environment" = None).
Proof.
  intros Hcfg.
  assert (cfg = configurationData d) as ->.
  { unfold providerConfigure in Hcfg.
    destruct (GetOk d "environment") as [e ok].
    destruct (ok && negb (isMap e)); by simplify_eq. }
  split; [apply configurationData_lookup|].
  intros Honly.
  assert (∀ key : string, is_Some (configurationData d !! key)
                          ↔ key = "executor" ∨ key = "script") as Hdom.
  { intros key. rewrite configurationData_lookup.
    destruct (decide (key ∈ recognizedKeys)) as [Hin|Hnin].
    - rewrite <- (Honly key Hin).
      destruct (GetOk d key).2; split; intros; try done;
        by apply is_Some_None in H.
    - split; [by intros ?%is_Some_None|].
      intros [-> | ->]; destruct Hnin; vm_compute; repeat constructor. }
  split_and!.
  - apply set_eq. intros key.
    rewrite elem_of_dom, Hdom, elem_of_union, !elem_of_singleton. done.
  - apply eq_None_not_Some. rewrite Hdom. by intros [?|?].
  - apply eq_None_not_Some. rewrite Hdom. by intros [?|?].
Qed.

End Configure.

Lemma configure_error_iff_witness :
  (∃ e, GetOk config.stringEnvironment "environment" = (e, true)
        ∧ universe.isMap e = false)
  ∧ snd (universe.providerConfigure config.stringEnvironment) ≠ None.
Proof.
  assert (∃ e, GetOk config.stringEnvironment "environment" = (e, true)
               ∧ universe.isMap e = false) as Hbad.
  { exists (VString "PATH=/bin"). split; reflexivity. }
  split; [exact Hbad|].
  exact (proj2 (proj1 (configure_error_iff config.stringEnvironment)) Hbad).
Defined.

(** C1, as stated, fails: an environment supplied as a map[string]string is
    a map, and normalization returns an error for it. *)
Lemma map_of_strings_refused :
  GetOk config.stringMapEnvironment "environment"
  = (VStrMap {[ "PATH" := "/bin" ]}, true)
  ∧ config.anyMap (VStrMap {[ "PATH" := "/bin" ]}) = true
  ∧ universe.providerConfigure config.stringMapEnvironment
    = (VNil,
       Some (Errorf
               "environment - expected map[string]interface{} bit got %#v"
               [VStrMap {[ "PATH" := "/bin" ]}]))
  ∧ snd (universe.providerConfigure config.stringMapEnvironment) ≠ None.
Proof. split_and!; [reflexivity..|discriminate]. Qed.

Lemma configure_error_result_witness :
  GetOk config.stringEnvironment "environment" = (VString "PATH=/bin", true)
  ∧ universe.providerConfigure config.stringEnvironment
    = (VNil,
       Some (Errorf
               "environment - expected map[string]interface{} bit got %#v"
               [VString "PATH=/bin"])).
Proof.
  split; [reflexivity|].
  apply (configure_error_result config.stringEnvironment
           (VString "PATH=/bin")); reflexivity.
Defined.

(** C2, as stated, fails: with executor supplied and environment supplied
    as a string, the loop has built a map that holds executor, and the
    caller receives nil instead of it. *)
Lemma partial_map_not_returned :
  GetOk config.stringEnvironment "environment" = (VString "PATH=/bin", true)
  ∧ universe.isMap (VString "PATH=/bin") = false
  ∧ universe.configurationData config.stringEnvironment !! "executor"
    = Some (VString "python")
  ∧ fst (universe.providerConfigure config.stringEnvironment) = VNil
  ∧ fst (universe.providerConfigure config.stringEnvironment)
    ≠ VMap (universe.configurationData config.stringEnvironment).
Proof. split_and!; [reflexivity..|discriminate]. Qed.

Lemma environment_entry_is_map_witness :
  universe.providerConfigure config.mixedEnvironment
  = (VMap (universe.configurationData config.mixedEnvironment), None)
  ∧ universe.configurationData config.mixedEnvironment !! "environment"
    = Some (VMap {[ "DEBUG" := VInt 1 ]})
  ∧ ∃ m, VMap {[ "DEBUG" := VInt 1 ]} = VMap m.
Proof.
  split; [reflexivity|]. split; [reflexivity|].
  apply (environment_entry_is_map config.mixedEnvironment
           (universe.configurationData config.mixedEnvironment)
           (VMap {[ "DEBUG" := VInt 1 ]})); reflexivity.
Defined.

(** C3, as stated, fails: a configuration whose environment is a map with
    an integer value is accepted, and the snapshot holds that map. *)
Lemma environment_values_unchecked :
  universe.providerConfigure config.mixedEnvironment
  = (VMap (universe.configurationData config.mixedEnvironment), None)
  ∧ universe.configurationData config.mixedEnvironment !! "environment"
    = Some (VMap {[ "DEBUG" := VInt 1 ]})
  ∧ ¬ config.flatStringMap (VMap {[ "DEBUG" := VInt 1 ]}).
Proof.
  split; [reflexivity|]. split; [reflexivity|].
  intros (m & Hm & Hall). injection Hm as <-.
  destruct (Hall "DEBUG" (VInt 1)) as [s Hs]; [reflexivity|discriminate].
Qed.

Lemma configure_sparse_witness :
  universe.providerConfigure config.minimal
  = (VMap (universe.configurationData config.minimal), None)
  ∧ dom (universe.configurationData config.minimal)
    = ({[ "executor"; "script" ]} : gset string)
  ∧ universe.configurationData config.minimal !! "id_key" = None
  ∧ universe.configurationData config.minimal !! "environment" = None.
Proof.
  split; [reflexivity|].
  apply (proj2 (configure_sparse config.minimal
                  (universe.configurationData config.minimal) eq_refl)).
  intros key Hin. unfold universe.recognizedKeys in Hin.
  repeat (apply elem_of_cons in Hin as [->|Hin]);
    [split; [try discriminate; auto | intros [?|?]; try discriminate;
                                      reflexivity].. |].
  by apply elem_of_nil in Hin.
Defined.

(* ===================================================================== *)
(** * Submatches along a match                                          *)
(* ===================================================================== *)

Section Groups.
Import regexp pattern.
Variables (n i : nat) (x : option (option string)).
Implicit Types (r : Regexp) (s : string) (caps m : submatches) (k : cont).
Local Abbreviation fixes := (pattern.fixes i x).

Lemma star_fixes (step : matcher) k :
  (∀ k' s caps m, fixes k' → step s caps k' = Some m →
                  caps !! i = x → m !! i = x) →
  fixes k →
  ∀ fuel s caps m, star step fuel s caps k = Some m →
                   caps !! i = x → m !! i = x.
Proof.
  intros Hstep Hk fuel. induction fuel as [|fuel IH]; intros s caps m H Hi.
  - by apply (Hk s caps).
  - simpl in H. destruct (step s caps _) as [m'|] eqn:E.
    + simplify_eq. eapply Hstep; [|exact E|done].
      intros s1 caps1 m1 H1 Hi1.
      destruct (String.length s1 <? String.length s)%nat; [|done].
      by apply (IH s1 caps1).
    + by apply (Hk s caps).
Qed.

(** A pattern without group [i] leaves submatch [i] alone. *)
Lemma backtrack_fixes r : ∀ k s caps m,
  hasGroup i r = false → fixes k →
  backtrack n r s caps k = Some m → caps !! i = x → m !! i = x.
Proof.
  induction r as [| l | p | | | j r IH | r IH | r IH | r IH | r IH
                 | r1 IH1 r2 IH2]; intros k s caps m Hg Hk H Hi;
    simpl in H, Hg.
  - by apply (Hk s caps).
  - destruct (Str.strip l s) as [t|]; [|done]. by apply (Hk t caps).
  - destruct s as [|c t]; [done|]. destruct (p c); [|done].
    by apply (Hk t caps).
  - destruct (String.length s =? n)%nat; [|done]. by apply (Hk s caps).
  - destruct s; [|done]. by apply (Hk "" caps).
  - apply orb_false_iff in Hg as [Hij Hg]. apply Nat.eqb_neq in Hij.
    eapply IH; [done| |exact H|done].
    intros s1 caps1 m1 H1 Hi1. apply (Hk s1 _ m1 H1).
    by rewrite list_lookup_insert_ne.
  - by apply (IH k s caps).
  - eapply star_fixes; [|exact Hk|exact H|done].
    intros k' s1 caps1 m1 Hk'. by apply IH.
  - eapply IH; [done| |exact H|done].
    intros s1 caps1 m1 H1 Hi1.
    eapply star_fixes; [|exact Hk|exact H1|done].
    intros k' s2 caps2 m2 Hk'. by apply IH.
  - destruct (backtrack n r s caps k) as [m'|] eqn:E.
    + simplify_eq. by apply (IH k s caps).
    + by apply (Hk s caps).
  - apply orb_false_iff in Hg as [Hg1 Hg2].
    eapply IH1; [done| |exact H|done].
    intros s1 caps1 m1 H1 Hi1. by apply (IH2 k s1 caps1).
Qed.
End Groups.

(** The name group is greedy: what it holds is the longest name. *)

Section Longest.
Import regexp.
Variables (n : nat) (p : ascii → bool).
Implicit Types (s w u : string) (caps m : submatches) (k : cont).

(** When the loop fails, the continuation has rejected every place at
    which the loop can leave. *)
Lemma star_class_none_inv fuel : ∀ s caps k,
  (String.length s ≤ fuel)%nat →
  star (backtrack n (CharClass p)) fuel s caps k = None →
  ∀ u1 u2, s = u1 +:+ u2 → Str.all p u1 = true → k u2 caps = None.
Proof.
  induction fuel as [|fuel IH]; intros s caps k Hfuel H u1 u2 Hs Hu1.
  - destruct s; [|simpl in Hfuel; lia].
    destruct u1; [|done]. rewrite str_app_nil_l in Hs. by subst u2.
  - simpl in H. destruct s as [|c t].
    { destruct u1; [|done]. rewrite str_app_nil_l in Hs. by subst u2. }
    simpl in Hfuel.
    destruct u1 as [|b u1].
    { rewrite str_app_nil_l in Hs. subst u2.
      destruct (p c); [|done].
      by destruct (if (_ <? _)%nat then _ else _). }
    rewrite str_app_cons in Hs. injection Hs as <- ->.
    simpl in Hu1. apply andb_true_iff in Hu1 as [Hc Hu1]. rewrite Hc in H.
    destruct (Nat.ltb_spec (String.length (u1 +:+ u2))
                (String.length (String c (u1 +:+ u2)))); [|simpl in *; lia].
    destruct (star _ fuel (u1 +:+ u2) caps k) eqn:E; [done|].
    eapply IH; [|exact E|done..]. lia.
Qed.

(** Greedy: the loop leaves at the last place that the continuation
    accepts. *)
Lemma star_class_sound_longest fuel : ∀ s caps k m,
  (String.length s ≤ fuel)%nat →
  star (backtrack n (CharClass p)) fuel s caps k = Some m →
  ∃ w s', s = w +:+ s' ∧ Str.all p w = true ∧ k s' caps = Some m
    ∧ ∀ u1 u2, s' = u1 +:+ u2 → u1 ≠ "" → Str.all p u1 = true →
               k u2 caps = None.
Proof.
  induction fuel as [|fuel IH]; intros s caps k m Hfuel H.
  - destruct s; [|simpl in Hfuel; lia]. exists "", "".
    split_and!; [done..|]. intros u1 u2 Hs Hne. by destruct u1.
  - simpl in H. destruct s as [|c t].
    { exists "", "". split_and!; [done..|].
      intros u1 u2 Hs Hne. by destruct u1. }
    simpl in Hfuel. destruct (p c) eqn:Hc.
    + destruct (Nat.ltb_spec (String.length t)
                  (String.length (String c t))); [|simpl in *; lia].
      destruct (star _ fuel t caps k) as [m'|] eqn:E.
      * simplify_eq. apply IH in E as (w & s' & -> & Hw & Hk & Hmax); [|lia].
        exists (String c w), s'. split_and!; [done| |done..].
        simpl. by rewrite Hc, Hw.
      * exists "", (String c t). split_and!; [done..|].
        intros u1 u2 Hs Hne Hu1. destruct u1 as [|b u1]; [done|].
        rewrite str_app_cons in Hs. injection Hs as <- ->.
        simpl in Hu1. apply andb_true_iff in Hu1 as [_ Hu1].
        eapply star_class_none_inv; [|exact E|done..]. lia.
    + exists "", (String c t). split_and!; [done..|].
      intros u1 u2 Hs Hne Hu1. destruct u1 as [|b u1]; [done|].
      rewrite str_app_cons in Hs. injection Hs as <- ->.
      simpl in Hu1. by rewrite Hc in Hu1.
Qed.

Lemma plus_class_sound_longest s caps k m :
  backtrack n (Plus (CharClass p)) s caps k = Some m →
  ∃ w s', s = w +:+ s' ∧ w ≠ "" ∧ Str.all p w = true ∧ k s' caps = Some m
    ∧ ∀ u1 u2, s' = u1 +:+ u2 → u1 ≠ "" → Str.all p u1 = true →
               k u2 caps = None.
Proof.
  simpl. destruct s as [|c t]; [done|]. destruct (p c) eqn:Hc; [|done].
  intros (w & s' & -> & Hw & Hk & Hmax)%star_class_sound_longest; [|done].
  exists (String c w), s'. split_and!; [done..| |done|done].
  simpl. by rewrite Hc, Hw.
Qed.
End Longest.

Section Split.

Lemma str_app_longer (a s b t : string) :
  a +:+ s = b +:+ t → (String.length a < String.length b)%nat →
  ∃ u, u ≠ "" ∧ b = a +:+ u ∧ s = u +:+ t.
Proof.
  revert b. induction a as [|c a IH]; intros b Heq Hlen.
  - rewrite str_app_nil_l in Heq. exists b.
    destruct b; [simpl in Hlen; lia|done].
  - destruct b as [|c' b]; [simpl in Hlen; lia|].
    rewrite !str_app_cons in Heq. injection Heq as <- Heq.
    simpl in Hlen. destruct (IH b Heq) as (u & Hu & -> & ->); [lia|].
    by exists u.
Qed.
End Split.

Section Tail.
Import regexp pattern universe.
Variable n : nat.

Local Abbreviation tail :=
  (Quest (NonCapture versionSuffix) ⋅ Quest (NonCapture preSuffix) ⋅ EndText)%re.

(** What may follow the name: a version suffix or none, then a pre-release
    suffix or none, then the end. *)
Lemma denote_tail s s' :
  denote n tail s s' →
  ∃ ver pre, s = ver +:+ pre
    ∧ (ver = "" ∨ ∃ v, version v ∧ ver = "-" +:+ v) ∧ preRelease pre.
Proof.
  intros (t3 & Hver & t4 & Hpre & Hs' & Ht4).
  destruct Hver as [Hver|Hver]; [apply denote_versionSuffix in Hver
    as (v & Hv & Hver)|];
  (destruct Hpre as [Hpre|Hpre]; [apply denote_preSuffix in Hpre
    as (d & Hd & Hpre)|]); subst.
  - exists ("-" +:+ v), ("-pre" +:+ d). rewrite !str_app_nil_r.
    rewrite !str_app_assoc. split_and!; [done|right; eauto|right; eauto].
  - exists ("-" +:+ v), "". rewrite !str_app_nil_r.
    split_and!; [done|right; eauto|by left].
  - exists "", ("-pre" +:+ d). rewrite !str_app_nil_r.
    split_and!; [done|by left|right; eauto].
  - exists "", "". split_and!; [done|by left|by left].
Qed.

Lemma denote_tail_intro ver pre :
  (ver = "" ∨ ∃ v, version v ∧ ver = "-" +:+ v) → preRelease pre →
  denote n tail (ver +:+ pre) "".
Proof.
  intros Hver Hpre. exists pre. split.
  { destruct Hver as [->|(v & Hv & ->)]; [by right|left].
    rewrite str_app_assoc. by apply denote_versionSuffix_intro. }
  exists "". split; [|done].
  destruct Hpre as [->|(d & Hd & ->)]; [by right|left].
  rewrite <- (str_app_nil_r ("-pre" +:+ d)), str_app_assoc.
  by apply denote_preSuffix_intro.
Qed.
End Tail.

Section Exactly.
Import regexp pattern universe.

(** What a match of the provider's pattern holds in group 1: the longest
    name that the pattern can take from the binary's name. *)
Lemma matchAt_name_longest b m :
  matchAt providerNameRe (String.length b) b = Some m →
  ∃ name,
    length m = 3%nat ∧ m !! 1%nat = Some (Some name) ∧
    providerSplit b name ∧
    ∀ name', providerSplit b name' →
             (String.length name' ≤ String.length name)%nat.
Proof.
  intros H.
  assert (length m = 3%nat) as Hlen.
  { unfold matchAt in H. eapply (backtrack_length _ 3); [|exact H|done].
    intros s1 caps1 m1 H1 Hlen1. simplify_eq. by rewrite length_insert. }
  unfold matchAt, providerNameRe in H.
  change (backtrack ?n (BeginText ⋅ ?r) ?s ?caps ?k)
    with (if (String.length s =? n)%nat then backtrack n r s caps k
          else None) in H.
  rewrite Nat.eqb_refl in H.
  change (backtrack ?n (Literal ?l ⋅ ?r) ?s ?caps ?k)
    with (match Str.strip l s with
          | Some s' => backtrack n r s' caps k | None => None end) in H.
  destruct (Str.strip _ b) as [rest|] eqn:Hb; [|done].
  apply str_strip_Some in Hb.
  change (backtrack ?n (NonCapture (Capture ?i ?r) ⋅ ?r2) ?s ?c ?k')
    with (backtrack n r s c (λ s' caps',
            backtrack n r2 s'
              (<[i := Some (Str.take (String.length s - String.length s') s)]>
                 caps') k')) in H.
  apply plus_class_sound_longest
    in H as (name & s' & -> & Hne & Hname & H & Hmax).
  rewrite str_take_consumed in H.
  exists name. split_and!; [done| | |].
  - eapply (backtrack_fixes _ 1); [| |exact H|reflexivity]; [reflexivity|].
    intros s1 caps1 m1 H1 Hi1. simplify_eq.
    by rewrite list_lookup_insert_ne.
  - apply backtrack_sound in H as (s'' & caps' & Hd & _).
    apply denote_tail in Hd as (ver & pre & -> & Hver & Hpre).
    exists ver, pre. by rewrite Hb.
  - intros name' (ver' & pre' & Hb' & Hne' & Hname' & Hver' & Hpre').
    destruct (Nat.le_gt_cases (String.length name') (String.length name))
      as [|Hlt]; [done|exfalso].
    rewrite Hb in Hb'. apply (inj (String.app _)) in Hb'.
    apply str_app_longer in Hb' as (u & Hu & -> & ->); [|done].
    rewrite str_all_app in Hname'.
    apply andb_true_iff in Hname' as [_ Hu'].
    specialize (Hmax u (ver' +:+ pre') eq_refl Hu Hu'). cbv beta in Hmax.
    eapply (is_Some_None (A := submatches)). rewrite <- Hmax.
    eapply backtrack_complete; [by apply denote_tail_intro|].
    by intros caps.
Qed.
End Exactly.

Section Shape.
Import regexp pattern universe.

(** X1. Without an override the resolved name is never empty and never
    holds a digit; when the binary's name has the pattern's form, the
    resolved name is the longest name that the pattern can take from it:
    non-digits that follow the prefix terraform-provider- and are followed
    by nothing but an optional version suffix and an optional pre-release
    suffix. *)
Theorem resolved_name_shape (environ : gmap string string) (arg0 : string) :
  os.LookupEnv environ EnvProviderNameVar = None →
  let name := getProviderNameFromBinaryOrEnvironment environ arg0 in
  name ≠ "" ∧ Str.all notDigit name = true
  ∧ (providerBinary (filepath.Base arg0) →
     providerSplit (filepath.Base arg0) name
     ∧ ∀ name', providerSplit (filepath.Base arg0) name' →
                (String.length name' ≤ String.length name)%nat).
Proof.
  intros Henv. unfold getProviderNameFromBinaryOrEnvironment. rewrite Henv.
  cbv zeta. pose proof (find_some_iff (filepath.Base arg0)) as Hiff.
  unfold FindStringSubmatch in *. rewrite search_providerNameRe in *.
  destruct (matchAt _ _ _) as [m|] eqn:E.
  - apply matchAt_name_longest in E as (name & Hlen & H1 & Hsplit & Hmax).
    rewrite length_fmap, Hlen, list_lookup_fmap, H1. simpl.
    destruct Hsplit as (ver & pre & Hb & Hne & Hname & Hver & Hpre).
    split_and!; [done..|]. intros _. split; [|done].
    by exists ver, pre.
  - simpl. split_and!; [done..|]. intros Hb. by apply Hiff in Hb.
Qed.
End Shape.

(* ===================================================================== *)
(** * Backing off by several bytes                                      *)
(* ===================================================================== *)

Section Backoff.
Import regexp.
Variables (n : nat) (p : ascii → bool).
Implicit Types (s w u : string) (caps m : submatches) (k : cont).

(** The loop fails when the continuation rejects every place at which the
    loop can leave. *)
Lemma star_class_none u s caps k fuel :
  Str.all p u = true → Str.stops p s = true →
  (∀ u1 u2, u = u1 +:+ u2 → k (u2 +:+ s) caps = None) →
  star (backtrack n (CharClass p)) fuel (u +:+ s) caps k = None.
Proof.
  revert fuel. induction u as [|c u IH]; intros fuel Hu Hs Hk.
  - rewrite str_app_nil_l, star_class_stop by done. apply (Hk "" "" eq_refl).
  - destruct fuel as [|fuel]; [apply (Hk "" (String c u) eq_refl)|].
    simpl in Hu. apply andb_true_iff in Hu as [Hc Hu].
    rewrite str_app_cons. simpl. rewrite Hc.
    destruct (_ <? _)%nat.
    + rewrite IH; [apply (Hk "" (String c u) eq_refl)|done..|].
      intros u1 u2 ->. apply (Hk (String c u1) u2 eq_refl).
    + apply (Hk "" (String c u) eq_refl).
Qed.

(** Backing off by several bytes: the match leaves the loop at the last
    place that the continuation accepts. *)
Lemma star_class_backoff_to w u s caps k m fuel :
  Str.all p w = true → Str.all p u = true → Str.stops p s = true →
  (String.length (w +:+ u +:+ s) ≤ fuel)%nat →
  (∀ u1 u2, u = u1 +:+ u2 → u1 ≠ "" → k (u2 +:+ s) caps = None) →
  k (u +:+ s) caps = Some m →
  star (backtrack n (CharClass p)) fuel (w +:+ u +:+ s) caps k = Some m.
Proof.
  intros Hw Hu Hs. revert fuel.
  induction w as [|c w IH]; intros fuel Hfuel Hno Hk.
  - rewrite str_app_nil_l in *. destruct u as [|c u].
    + rewrite str_app_nil_l in *. by rewrite star_class_stop.
    + destruct fuel as [|fuel]; [done|].
      simpl in Hu. apply andb_true_iff in Hu as [Hc Hu].
      rewrite str_app_cons in *. simpl. rewrite Hc.
      destruct (_ <? _)%nat; [|done].
      rewrite star_class_none; [done..|].
      intros u1 u2 ->. by apply (Hno (String c u1) u2).
  - rewrite str_app_cons in *. simpl in Hw, Hfuel.
    apply andb_true_iff in Hw as [Hc Hw].
    destruct fuel as [|fuel]; [lia|]. simpl. rewrite Hc.
    destruct (Nat.ltb_spec (String.length (w +:+ u +:+ s))
                (S (String.length (w +:+ u +:+ s)))); [|lia].
    rewrite IH; [done..|lia|done|done].
Qed.

Lemma plus_class_backoff_to w u s caps k m :
  w ≠ "" → Str.all p w = true → Str.all p u = true → Str.stops p s = true →
  (∀ u1 u2, u = u1 +:+ u2 → u1 ≠ "" → k (u2 +:+ s) caps = None) →
  k (u +:+ s) caps = Some m →
  backtrack n (Plus (CharClass p)) (w +:+ u +:+ s) caps k = Some m.
Proof.
  intros Hne Hw Hu Hs Hno Hk. destruct w as [|c w]; [done|].
  rewrite str_app_cons. simpl in Hw |- *.
  apply andb_true_iff in Hw as [-> Hw].
  by apply star_class_backoff_to.
Qed.

Lemma star_class_all w caps k m :
  Str.all p w = true → k "" caps = Some m →
  backtrack n (Star (CharClass p)) w caps k = Some m.
Proof.
  intros Hw Hk. simpl. rewrite <- (str_app_nil_r w) at 2.
  apply (star_class_longest n p); [done..|by rewrite str_app_nil_r|done].
Qed.
End Backoff.

Section Suffixes.
Import regexp pattern universe.
Implicit Types (s v pre : string) (caps m : submatches) (k : cont).

Lemma quest_skipped n r s caps k :
  backtrack n r s caps k = None →
  backtrack n (Quest r) s caps k = k s caps.
Proof. intros H. simpl. by rewrite H. Qed.

Lemma literal_refused n l r s caps k :
  Str.strip l s = None → backtrack n (Literal l ⋅ r) s caps k = None.
Proof. intros H. simpl. by rewrite H. Qed.

Lemma preRelease_stops pre :
  preRelease pre → Str.stops digit pre = true ∧ Str.strip "." pre = None.
Proof. by intros [->|(d & _ & ->)]. Qed.

Lemma pre_end n pre caps k m :
  preRelease pre → k "" caps = Some m →
  backtrack n (Quest (NonCapture preSuffix) ⋅ EndText) pre caps k = Some m.
Proof.
  intros [->|(d & Hd & ->)] Hk; [done|].
  change (backtrack n (?r1 ⋅ ?r2) ?s ?c ?k')
    with (backtrack n r1 s c (λ s' caps', backtrack n r2 s' caps' k')).
  apply quest_taken.
  change (backtrack n (NonCapture ?r) ?s ?c ?k') with (backtrack n r s c k').
  unfold preSuffix. rewrite literal_taken. by apply star_class_all.
Qed.

Lemma version_body n v s caps k m :
  version v → Str.stops digit s = true → Str.strip "." s = None →
  k s caps = Some m →
  backtrack n
    (Plus (CharClass digit) ⋅
     Quest (NonCapture
       (Literal "." ⋅ Plus (CharClass digit) ⋅
        Quest (NonCapture (Literal "." ⋅ Plus (CharClass digit))))))
    (v +:+ s) caps k = Some m.
Proof.
  intros (a & [Hane Ha] & Hv) Hs Hdot Hk.
  change (backtrack n (?r1 ⋅ ?r2) ?s ?c ?k')
    with (backtrack n r1 s c (λ s' caps', backtrack n r2 s' caps' k')).
  destruct Hv as [->|(b & [Hbne Hb] & Hv)].
  { apply plus_class_longest; [done..|].
    rewrite quest_skipped; [done|]. by apply literal_refused. }
  destruct Hv as [->|(c & [Hcne Hc] & ->)]; rewrite !str_app_assoc;
    (apply plus_class_longest; [done..|]); apply quest_taken;
    change (backtrack n (NonCapture ?r) ?s ?c ?k') with (backtrack n r s c k');
    rewrite literal_taken;
    change (backtrack n (?r1 ⋅ ?r2) ?s ?c ?k')
      with (backtrack n r1 s c (λ s' caps', backtrack n r2 s' caps' k')).
  - apply plus_class_longest; [done..|].
    rewrite quest_skipped; [done|]. by apply literal_refused.
  - apply plus_class_longest; [done..|]. apply quest_taken.
    change (backtrack n (NonCapture ?r) ?s ?c ?k') with (backtrack n r s c k').
    rewrite literal_taken. by apply plus_class_longest.
Qed.

Lemma tail_version_pre n v pre caps k m :
  version v → preRelease pre →
  k "" (<[2%nat := Some v]> caps) = Some m →
  backtrack n (Quest (NonCapture versionSuffix) ⋅
               Quest (NonCapture preSuffix) ⋅ EndText)
    ("-" +:+ v +:+ pre) caps k = Some m.
Proof.
  intros Hv Hpre Hk.
  change (backtrack n (?r1 ⋅ ?r2) ?s caps k)
    with (backtrack n r1 s caps (λ s' caps', backtrack n r2 s' caps' k)).
  apply quest_taken.
  change (backtrack n (NonCapture ?r) ?s ?c ?k') with (backtrack n r s c k').
  unfold versionSuffix. rewrite literal_taken.
  change (backtrack n (Capture ?i ?r) ?s ?c ?k')
    with (backtrack n r s c (λ s' caps',
            k' s' (<[i := Some (Str.take (String.length s
                                          - String.length s') s)]> caps'))).
  destruct (preRelease_stops _ Hpre) as [Hs Hdot].
  apply version_body; [done..|].
  cbv beta. rewrite str_take_consumed. by apply pre_end.
Qed.

Lemma version_starts v s : version v → Str.stops notDigit (v +:+ s) = true.
Proof.
  intros (a & Ha & Hv).
  destruct Hv as [->|(b & _ & [->|(c & _ & ->)])];
    rewrite ?str_app_assoc; by apply stops_number.
Qed.

Lemma version_digit v s :
  version v → ∃ d t, digit d = true ∧ v +:+ s = String d t.
Proof.
  intros (a & [Hane Ha] & Hv). destruct a as [|d a]; [done|].
  simpl in Ha. apply andb_true_iff in Ha as [Hd _]. exists d.
  destruct Hv as [->|(b & _ & [->|(c & _ & ->)])]; eauto.
Qed.

Lemma matchAt_suffixed name v pre :
  name ≠ "" → Str.all notDigit name = true → version v → preRelease pre →
  let b := "terraform-provider-" +:+ name +:+ "-" +:+ v +:+ pre in
  matchAt providerNameRe (String.length b) b
  = Some [Some b; Some name; Some v].
Proof.
  intros Hne Hname Hv Hpre b. unfold matchAt, b.
  rewrite backtrack_prefix.
  change (backtrack ?n (?r1 ⋅ ?r2) ?s ?c ?k')
    with (backtrack n r1 s c (λ s' caps', backtrack n r2 s' caps' k')).
  change (backtrack ?n (Capture ?i ?r) ?s ?c ?k')
    with (backtrack n r s c (λ s' caps',
            k' s' (<[i := Some (Str.take (String.length s
                                          - String.length s') s)]> caps'))).
  apply (plus_class_backoff _ _ name "-" (v +:+ pre)); [done..| | |].
  - by apply version_starts.
  - destruct (version_digit v pre Hv) as (d & t & Hd & ->).
    by apply tail_digit.
  - change (String "-" (v +:+ pre)) with ("-" +:+ v +:+ pre).
    rewrite (str_take_consumed name ("-" +:+ v +:+ pre)).
    apply tail_version_pre; [done..|].
    cbv beta. change (String.length "") with O.
    by rewrite Nat.sub_0_r, str_take_length.
Qed.

Lemma matchAt_pre_only name d :
  name ≠ "" → Str.all notDigit name = true → number d →
  let b := "terraform-provider-" +:+ name +:+ "-pre" +:+ d in
  matchAt providerNameRe (String.length b) b
  = Some [Some b; Some name; None].
Proof.
  intros Hne Hname [Hdne Hd] b. unfold matchAt, b.
  rewrite backtrack_prefix.
  change (backtrack ?n (?r1 ⋅ ?r2) ?s ?c ?k')
    with (backtrack n r1 s c (λ s' caps', backtrack n r2 s' caps' k')).
  change (backtrack ?n (Capture ?i ?r) ?s ?c ?k')
    with (backtrack n r s c (λ s' caps',
            k' s' (<[i := Some (Str.take (String.length s
                                          - String.length s') s)]> caps'))).
  destruct d as [|c d]; [done|]. simpl in Hd.
  apply andb_true_iff in Hd as [Hc Hd].
  apply (plus_class_backoff_to _ _ name "-pre" (String c d)); [done..| | |].
  - simpl. unfold notDigit. by rewrite Hc.
  - intros u1 u2 Hu Hu1.
    destruct u1 as [|a1 u1]; [done|].
    rewrite str_app_cons in Hu. injection Hu as <- Hu.
    do 3 (destruct u1 as [|? u1];
          [rewrite str_app_nil_l in Hu; subst u2; reflexivity|];
          rewrite str_app_cons in Hu; injection Hu as <- Hu).
    destruct u1; [|done]. rewrite str_app_nil_l in Hu. subst u2.
    rewrite str_app_nil_l. by apply tail_digit.
  - rewrite (str_take_consumed name ("-pre" +:+ String c d)).
    change (backtrack ?n (?r1 ⋅ ?r2) ?s ?c ?k')
      with (backtrack n r1 s c (λ s' caps', backtrack n r2 s' caps' k')).
    rewrite quest_skipped by reflexivity.
    apply (pre_end _ ("-pre" +:+ String c d)).
    + right. exists (String c d). split; [|done]. simpl. by rewrite Hc, Hd.
    + cbv beta. change (String.length "") with O.
      by rewrite Nat.sub_0_r, str_take_length.
Qed.
End Suffixes.

(* ===================================================================== *)
(** * The last element of a path                                        *)
(* ===================================================================== *)

Section Paths.
Import filepath.

Lemma stripTrailingSeparators_element b :
  noSeparator b = true → stripTrailingSeparators b = b.
Proof.
  induction b as [|c b IH]; [done|]. intros [Hc Hb]%andb_true_iff.
  simpl. rewrite (IH Hb). apply negb_true_iff in Hc. rewrite Hc.
  by destruct b.
Qed.

Lemma stripTrailingSeparators_app x b :
  b ≠ "" → noSeparator b = true →
  stripTrailingSeparators (x +:+ b) = x +:+ b.
Proof.
  intros Hne Hb. induction x as [|c x IH].
  - by apply stripTrailingSeparators_element.
  - rewrite str_app_cons. simpl. rewrite IH.
    destruct (x +:+ b) eqn:E; [|done].
    destruct x; [|done]. by rewrite str_app_nil_l in E.
Qed.

Lemma afterLastSeparator_element b :
  noSeparator b = true → afterLastSeparator b = None.
Proof.
  induction b as [|c b IH]; [done|]. intros [Hc Hb]%andb_true_iff.
  simpl. rewrite (IH Hb). apply negb_true_iff in Hc. by rewrite Hc.
Qed.

Lemma afterLastSeparator_app dir b :
  noSeparator b = true →
  afterLastSeparator (dir +:+ "/" +:+ b) = Some b.
Proof.
  intros Hb. induction dir as [|c dir IH].
  - rewrite str_app_nil_l. change ("/" +:+ b) with (String "/" b).
    simpl. by rewrite afterLastSeparator_element.
  - rewrite str_app_cons. simpl. by rewrite IH.
Qed.

Lemma Base_element b : b ≠ "" → noSeparator b = true → Base b = b.
Proof.
  intros Hne Hb. unfold Base. destruct b as [|c b]; [done|].
  rewrite stripTrailingSeparators_element, afterLastSeparator_element by done.
  done.
Qed.

Lemma Base_app dir b :
  b ≠ "" → noSeparator b = true → Base (dir +:+ "/" +:+ b) = b.
Proof.
  intros Hne Hb. unfold Base.
  destruct (dir +:+ "/" +:+ b) eqn:E.
  { destruct dir; [|done]. by rewrite str_app_nil_l in E. }
  rewrite <- E, <- (str_app_assoc dir "/" b).
  rewrite stripTrailingSeparators_app by done.
  rewrite str_app_assoc, afterLastSeparator_app by done.
  simpl. by destruct b.
Qed.
End Paths.

(* ===================================================================== *)
(** * Identity resolution: suffixes, directories, missing names         *)
(* ===================================================================== *)

Section MoreIdentity.
Import regexp pattern universe filepath.
Implicit Types (environ : gmap string string) (name : string).

(** X2. Without an override, a version of one to three components, and a
    pre-release suffix after it if there is one, are stripped:
    terraform-provider-<name>-<version>[-pre<digits>] resolves to <name>. *)
Theorem resolved_by_suffixes environ (arg0 : string) name v pre :
  os.LookupEnv environ EnvProviderNameVar = None →
  name ≠ "" → Str.all notDigit name = true →
  version v → preRelease pre →
  filepath.Base arg0 = "terraform-provider-" +:+ name +:+ "-" +:+ v +:+ pre →
  getProviderNameFromBinaryOrEnvironment environ arg0 = name.
Proof.
  intros Henv Hne Hname Hv Hpre Hb.
  unfold getProviderNameFromBinaryOrEnvironment, FindStringSubmatch.
  by rewrite Henv, Hb, search_providerNameRe, matchAt_suffixed.
Qed.

(** X3. Without a version, -pre followed by at least one digit is a
    pre-release suffix and is stripped, while a bare -pre stays part of the
    name. *)
Theorem resolved_pre_release environ (arg0 : string) name d :
  os.LookupEnv environ EnvProviderNameVar = None →
  name ≠ "" → Str.all notDigit name = true →
  filepath.Base arg0 = "terraform-provider-" +:+ name +:+ "-pre" +:+ d →
  (number d → getProviderNameFromBinaryOrEnvironment environ arg0 = name)
  ∧ (d = "" → getProviderNameFromBinaryOrEnvironment environ arg0
              = name +:+ "-pre").
Proof.
  intros Henv Hne Hname Hb.
  unfold getProviderNameFromBinaryOrEnvironment. rewrite Henv, Hb. split.
  - intros Hd. unfold FindStringSubmatch.
    by rewrite search_providerNameRe, matchAt_pre_only.
  - intros ->. rewrite str_app_nil_r.
    rewrite find_plain; [done|by destruct name|].
    by rewrite str_all_app, Hname.
Qed.

(** X4. Only the last element of os.Args[0] counts: putting a directory
    in front of the binary's name does not change the resolved name. *)
Theorem resolved_without_directory environ (dir b : string) :
  b ≠ "" → noSeparator b = true →
  getProviderNameFromBinaryOrEnvironment environ (dir +:+ "/" +:+ b)
  = getProviderNameFromBinaryOrEnvironment environ b.
Proof.
  intros Hne Hb. unfold getProviderNameFromBinaryOrEnvironment.
  by rewrite Base_app, Base_element.
Qed.

(** X5. Without an override, a binary named terraform-provider- with
    nothing after the prefix, or with a digit right after it, resolves to
    the default identity. *)
Theorem resolved_default_without_name environ (arg0 rest : string) :
  os.LookupEnv environ EnvProviderNameVar = None →
  filepath.Base arg0 = "terraform-provider-" +:+ rest →
  Str.stops notDigit rest = true →
  getProviderNameFromBinaryOrEnvironment environ arg0 = DefaultProviderName.
Proof.
  intros Henv Hb Hrest.
  unfold getProviderNameFromBinaryOrEnvironment. rewrite Henv, Hb.
  rewrite find_none; [done|].
  intros (name & ver & pre & Heq & Hne & Hname & _).
  apply (inj (String.app _)) in Heq. subst rest.
  destruct name as [|c name]; [done|].
  simpl in Hname. apply andb_true_iff in Hname as [Hc _].
  rewrite str_app_cons in Hrest. simpl in Hrest. by rewrite Hc in Hrest.
Qed.
End MoreIdentity.

(* ===================================================================== *)
(** * Resource type names: edge cases; the resource map                 *)
(* ===================================================================== *)

Section Blank.

Lemma is_space_rune c s :
  Ascii.is_space c = true →
  utf8.DecodeRuneInString (String c s) = (Str.byte c, 1%nat)
  ∧ unicode.IsSpace (Str.byte c) = true.
Proof.
  destruct c as [[] [] [] [] [] [] [] []]; try discriminate; by intros _.
Qed.

Lemma Fields_blank s :
  Str.all Ascii.is_space s = true → strings.Fields s = [].
Proof.
  unfold strings.Fields, strings.FieldsFunc.
  induction s as [|c s IH]; [done|]. intros [Hc Hs]%andb_true_iff.
  destruct (is_space_rune c s Hc) as [Hdec Hsp].
  cbn [strings.fieldsLoop]. rewrite Hdec, Hsp. by apply IH.
Qed.
End Blank.

Section MoreResourceTypes.
Import universe.
Context {tables : unicode.CaseTables}.
Implicit Types (environ : gmap string string) (identity names : string).

Lemma HasPrefix_longer x p :
  (String.length x < String.length p)%nat → strings.HasPrefix x p = false.
Proof.
  intros H. unfold strings.HasPrefix.
  destruct (Nat.leb_spec (String.length p) (String.length x)); [lia|done].
Qed.

Lemma rtn_stable prefix x : rtn prefix (rtn prefix x) = rtn prefix x.
Proof.
  unfold rtn. destruct (strings.HasPrefix x prefix) eqn:E; simpl.
  - by rewrite E.
  - by rewrite HasPrefix_app.
Qed.

(** X6. A resource type variable that is set but empty, or holds only
    ASCII white space, gives the same set as an absent one: the identity
    alone. *)
Theorem resource_types_blank environ identity names :
  os.LookupEnv environ
    ("TERRAFORM_" +:+ strings.ToUpper identity +:+ "_RESOURCETYPES")
  = Some names →
  Str.all Ascii.is_space names = true →
  getResourceTypeNamesFromEnvironment environ identity
  = {[ identity := true ]}.
Proof.
  intros Hvar Hblank. rewrite (names_present _ _ _ Hvar), Fields_blank by done.
  simpl. by rewrite (right_id_L ∅ (∪)), gset_to_gmap_singleton.
Qed.

(** X7. Every member of the set other than the identity is stable under
    the loop's prefixing rule: listed as a token, it is registered as it
    is. *)
Theorem resource_types_stable environ identity (x : string) :
  x ∈ dom (getResourceTypeNamesFromEnvironment environ identity) →
  x = identity
  ∨ (if strings.HasPrefix x (identity +:+ "_") then x
     else (identity +:+ "_") +:+ x) = x.
Proof.
  destruct (os.LookupEnv environ
              ("TERRAFORM_" +:+ strings.ToUpper identity
               +:+ "_RESOURCETYPES")) as [names|] eqn:Hvar.
  - rewrite (names_present _ _ _ Hvar), dom_gset_to_gmap, elem_of_union,
      elem_of_singleton, elem_of_list_to_set, list_elem_of_fmap.
    intros [->|(tok & -> & _)]; [by left|right].
    pose proof (rtn_stable (identity +:+ "_") tok) as Hst.
    unfold rtn at 1 in Hst. by destruct (strings.HasPrefix _ _).
  - rewrite (names_absent _ _ Hvar), dom_gset_to_gmap, elem_of_singleton.
    by left.
Qed.

(** X8. The identity listed as a token is not taken for the identity's
    own resource type: it lacks the prefix, so identity_identity is
    registered. *)
Theorem resource_types_identity_token environ identity names :
  os.LookupEnv environ
    ("TERRAFORM_" +:+ strings.ToUpper identity +:+ "_RESOURCETYPES")
  = Some names →
  identity ∈ strings.Fields names →
  (identity +:+ "_") +:+ identity
  ∈ dom (getResourceTypeNamesFromEnvironment environ identity).
Proof.
  intros Hvar Htok.
  rewrite (names_present _ _ _ Hvar), dom_gset_to_gmap, elem_of_union,
    elem_of_list_to_set, list_elem_of_fmap.
  right. exists identity. split; [|done].
  unfold rtn. rewrite HasPrefix_longer; [done|].
  rewrite str_length_app. simpl. lia.
Qed.

Variables (R : Type) (resourceCustom : R).

Lemma getResourceMap_fmap environ identity :
  getResourceMap resourceCustom environ identity
  = (λ _, resourceCustom)
    <$> getResourceTypeNamesFromEnvironment environ identity.
Proof.
  unfold getResourceMap.
  apply (map_fold_weak_ind (λ r m, r = (λ _, resourceCustom) <$> m)).
  - by rewrite fmap_empty.
  - intros i x m r _ ->. by rewrite fmap_insert.
Qed.

(** X9. The resource map has exactly the resource type names as its keys,
    and binds each of them to the one generic resource. *)
Theorem getResourceMap_template environ identity :
  dom (getResourceMap resourceCustom environ identity)
  = dom (getResourceTypeNamesFromEnvironment environ identity)
  ∧ ∀ (x : string) r,
      getResourceMap resourceCustom environ identity !! x = Some r →
      r = resourceCustom.
Proof.
  rewrite getResourceMap_fmap. split; [apply dom_fmap_L|].
  intros x r. rewrite lookup_fmap.
  destruct (_ !! x); by intros [=].
Qed.

(** X10. The provider exposes a resource named after the resolved
    identity, and each resource it exposes is the generic resource under a
    name that is the identity or begins with the identity and an
    underscore. *)
Theorem Provider_resources environ (arg0 : string) :
  let name := getProviderNameFromBinaryOrEnvironment environ arg0 in
  let resources :=
    schema.ResourcesMap (Provider resourceCustom environ arg0) in
  resources !! name = Some resourceCustom
  ∧ ∀ x : string, x ∈ dom resources →
      resources !! x = Some resourceCustom
      ∧ (x = name ∨ ∃ t, x = (name +:+ "_") +:+ t).
Proof.
  intros name resources. unfold resources, Provider. simpl.
  fold name. rewrite getResourceMap_fmap.
  assert (∀ x : string,
            x ∈ dom (getResourceTypeNamesFromEnvironment environ name) →
            x = name ∨ ∃ t, x = (name +:+ "_") +:+ t) as Hns.
  { intros x.
    destruct (os.LookupEnv environ
                ("TERRAFORM_" +:+ strings.ToUpper name
                 +:+ "_RESOURCETYPES")) as [names|] eqn:Hvar.
    - rewrite (names_present _ _ _ Hvar), dom_gset_to_gmap, elem_of_union,
        elem_of_singleton, elem_of_list_to_set, list_elem_of_fmap.
      intros [->|(tok & -> & _)]; [by left|right]. apply rtn_prefixed.
    - rewrite (names_absent _ _ Hvar), dom_gset_to_gmap, elem_of_singleton.
      by left. }
  assert (name ∈ dom (getResourceTypeNamesFromEnvironment environ name))
    as Hname.
  { destruct (os.LookupEnv environ
                ("TERRAFORM_" +:+ strings.ToUpper name
                 +:+ "_RESOURCETYPES")) as [names|] eqn:Hvar.
    - rewrite (names_present _ _ _ Hvar), dom_gset_to_gmap, elem_of_union,
        elem_of_singleton. by left.
    - by rewrite (names_absent _ _ Hvar), dom_gset_to_gmap,
        elem_of_singleton. }
  split.
  - rewrite lookup_fmap. apply elem_of_dom in Hname as [b ->]. done.
  - intros x. rewrite dom_fmap_L. intros Hx. split; [|by apply Hns].
    rewrite lookup_fmap. apply elem_of_dom in Hx as [b ->]. done.
Qed.
(** X11. For a binary that the pattern does not describe and no override,
    the provider's resources are universe and the tokens of
    TERRAFORM_UNIVERSE_RESOURCETYPES, each under the prefix universe_. *)
Theorem Provider_default_resources environ (arg0 : string) names :
  os.LookupEnv environ EnvProviderNameVar = None →
  ¬ pattern.providerBinary (filepath.Base arg0) →
  os.LookupEnv environ "TERRAFORM_UNIVERSE_RESOURCETYPES" = Some names →
  dom (schema.ResourcesMap (Provider resourceCustom environ arg0))
  = {[ "universe" ]}
    ∪ list_to_set
        ((λ token, if strings.HasPrefix token "universe_" then token
                   else "universe_" +:+ token) <$> strings.Fields names).
Proof.
  intros Henv Hno Hvar. unfold Provider. simpl.
  assert (getProviderNameFromBinaryOrEnvironment environ arg0 = "universe")
    as ->.
  { unfold getProviderNameFromBinaryOrEnvironment.
    by rewrite Henv, find_none. }
  rewrite getResourceMap_fmap, dom_fmap_L.
  rewrite (names_present environ "universe" names Hvar), dom_gset_to_gmap.
  do 2 f_equal. apply list_fmap_ext. intros _ token _.
  unfold rtn. by destruct (strings.HasPrefix _ _).
Qed.
End MoreResourceTypes.

(* ===================================================================== *)
(** * Configuration: what is read, and the diagnostics                  *)
(* ===================================================================== *)

Section MoreConfigure.
Import universe.
Implicit Types (d : ResourceLike) (cfg : gmap string value).

Lemma collect_ext d1 d2 (keys : list string) cfg :
  (∀ key : string, key ∈ keys → GetOk d1 key = GetOk d2 key) →
  foldl (λ data key,
           let '(val, ok) := GetOk d1 key in
           if negb ok then data else <[ key := val ]> data) cfg keys
  = foldl (λ data key,
             let '(val, ok) := GetOk d2 key in
             if negb ok then data else <[ key := val ]> data) cfg keys.
Proof.
  revert cfg. induction keys as [|k keys IH]; intros cfg Hext; [done|].
  simpl. rewrite (Hext k) by (apply elem_of_cons; by left).
  apply IH. intros key Hin. apply Hext, elem_of_cons. by right.
Qed.

(** X12. Normalization reads the five recognized keys and nothing else:
    two readers that agree on them give the same result. *)
Theorem configure_reads_recognized_keys d1 d2 :
  (∀ key : string, key ∈ recognizedKeys → GetOk d1 key = GetOk d2 key) →
  providerConfigure d1 = providerConfigure d2.
Proof.
  intros Hext. unfold providerConfigure, configurationData.
  rewrite (collect_ext d1 d2) by done.
  rewrite (Hext "environment"); [done|].
  unfold recognizedKeys. rewrite !elem_of_cons. auto.
Qed.

(** X13. When none of the recognized keys is supplied, normalization
    succeeds with the empty map. *)
Theorem configure_nothing_supplied d :
  (∀ key : string, key ∈ recognizedKeys → (GetOk d key).2 = false) →
  providerConfigure d = (VMap ∅, None).
Proof.
  intros Hnone. rewrite configure_ok.
  - do 2 f_equal. apply map_eq. intros key.
    rewrite configurationData_lookup, lookup_empty.
    destruct (decide (key ∈ recognizedKeys)) as [Hin|]; [|done].
    by rewrite (Hnone key Hin).
  - left. apply Hnone. unfold recognizedKeys. rewrite !elem_of_cons. auto.
Qed.

(** X14. providerConfigureV2 passes the result of providerConfigure on,
    turns its error into diagnostics, and reports an error diagnostic
    exactly when an environment value is supplied that is not a map. *)
Theorem configureV2_diagnostics d :
  fst (providerConfigureV2 d) = fst (providerConfigure d)
  ∧ snd (providerConfigureV2 d) = diag.FromErr (snd (providerConfigure d))
  ∧ (diag.HasError (snd (providerConfigureV2 d)) = true
     ↔ ∃ e, GetOk d "environment" = (e, true) ∧ isMap e = false).
Proof.
  unfold providerConfigureV2.
  destruct (GetOk d "environment") as [e ok] eqn:Hget.
  destruct ok; [destruct (isMap e) eqn:Hmap|].
  - rewrite configure_ok by (rewrite Hget; by right). simpl.
    split_and!; [done..|]. split; [done|].
    intros (e' & ? & ?). simplify_eq; congruence.
  - rewrite (configure_error d e) by done. simpl.
    split_and!; [done..|]. split; [|done]. eauto.
  - rewrite configure_ok by (rewrite Hget; by left). simpl.
    split_and!; [done..|]. split; [done|].
    intros (e' & ? & ?). simplify_eq.
Qed.

(** X15. The keys that normalization reads are the attributes that the
    provider's schema declares and javascript, which the schema does not
    declare. *)
Theorem schema_and_recognized_keys
    {tables : unicode.CaseTables} {R : Type} (resourceCustom : R)
    (environ : gmap string string) (arg0 key : string) :
  (key ∈ recognizedKeys
   ↔ key ∈ dom (schema.Schema_ (Provider resourceCustom environ arg0))
     ∨ key = "javascript")
  ∧ "javascript"
    ∉ dom (schema.Schema_ (Provider resourceCustom environ arg0)).
Proof.
  unfold Provider, providerSchema, recognizedKeys. simpl.
  rewrite !dom_insert_L, dom_singleton_L, !elem_of_union, !elem_of_singleton,
    !elem_of_cons, elem_of_nil. split; [tauto|].
  by intros [?|[?|[?|?]]].
Qed.
End MoreConfigure.

(* ===================================================================== *)
(** * The further properties at sample inputs                             *)
(* ===================================================================== *)

Lemma resolved_name_shape_witness :
  os.LookupEnv ∅ universe.EnvProviderNameVar = None
  ∧ pattern.providerSplit
      (filepath.Base "/usr/bin/terraform-provider-widget-1.2.3")
      (universe.getProviderNameFromBinaryOrEnvironment ∅
         "/usr/bin/terraform-provider-widget-1.2.3").
Proof.
  split; [reflexivity|].
  refine (proj1 (proj2 (proj2 (resolved_name_shape ∅
            "/usr/bin/terraform-provider-widget-1.2.3" _)) _));
    [reflexivity|].
  exists "widget", "-1.2.3", "". split_and!.
  - reflexivity.
  - discriminate.
  - reflexivity.
  - right. exists "1.2.3". split; [|reflexivity].
    exists "1". split; [split; [discriminate|reflexivity]|].
    right. exists "2". split; [split; [discriminate|reflexivity]|].
    right. exists "3". split; [split; [discriminate|reflexivity]|].
    reflexivity.
  - by left.
Defined.

Lemma resolved_by_suffixes_witness :
  filepath.Base "terraform-provider-widget-1.2-pre3"
  = "terraform-provider-" +:+ "widget" +:+ "-" +:+ "1.2" +:+ "-pre3"
  ∧ universe.getProviderNameFromBinaryOrEnvironment ∅
      "terraform-provider-widget-1.2-pre3" = "widget".
Proof.
  split; [reflexivity|].
  apply (resolved_by_suffixes ∅ "terraform-provider-widget-1.2-pre3"
           "widget" "1.2" "-pre3").
  - reflexivity.
  - discriminate.
  - reflexivity.
  - exists "1". split; [split; [discriminate|reflexivity]|].
    right. exists "2". split; [split; [discriminate|reflexivity]|].
    left. reflexivity.
  - right. exists "3". split; reflexivity.
  - reflexivity.
Defined.

Lemma resolved_pre_release_witness :
  pattern.number "7"
  ∧ universe.getProviderNameFromBinaryOrEnvironment ∅
      "terraform-provider-widget-pre7" = "widget".
Proof.
  assert (pattern.number "7") as Hd by (split; [discriminate|reflexivity]).
  split; [exact Hd|].
  refine (proj1 (resolved_pre_release ∅ "terraform-provider-widget-pre7"
                   "widget" "7" _ _ _ _) Hd);
    [reflexivity|discriminate|reflexivity|reflexivity].
Defined.

Lemma resolved_without_directory_witness :
  filepath.noSeparator "terraform-provider-widget" = true
  ∧ universe.getProviderNameFromBinaryOrEnvironment ∅
      ("/usr/local/bin" +:+ "/" +:+ "terraform-provider-widget")
    = universe.getProviderNameFromBinaryOrEnvironment ∅
        "terraform-provider-widget".
Proof.
  split; [reflexivity|].
  apply (resolved_without_directory ∅ "/usr/local/bin"
           "terraform-provider-widget"); [discriminate|reflexivity].
Defined.

Lemma resolved_default_without_name_witness :
  Str.stops regexp.notDigit "3scale" = true
  ∧ universe.getProviderNameFromBinaryOrEnvironment ∅
      "terraform-provider-3scale" = "universe".
Proof.
  split; [reflexivity|].
  apply (resolved_default_without_name ∅ "terraform-provider-3scale"
           "3scale"); reflexivity.
Defined.

Lemma resource_types_blank_witness :
  Str.all Ascii.is_space "  " = true
  ∧ universe.getResourceTypeNamesFromEnvironment
      (tables := unicode.Build_CaseTables id)
      {[ "TERRAFORM_WIDGET_RESOURCETYPES" := "  " ]} "widget"
    = {[ "widget" := true ]}.
Proof.
  split; [reflexivity|].
  apply (resource_types_blank (tables := unicode.Build_CaseTables id)
           {[ "TERRAFORM_WIDGET_RESOURCETYPES" := "  " ]} "widget" "  ");
    reflexivity.
Defined.

Lemma resource_types_stable_witness :
  "widget_foo"
  ∈ dom (universe.getResourceTypeNamesFromEnvironment
           (tables := unicode.Build_CaseTables id)
           {[ "TERRAFORM_WIDGET_RESOURCETYPES" := "foo" ]} "widget")
  ∧ ("widget_foo" = "widget"
     ∨ (if strings.HasPrefix "widget_foo" ("widget" +:+ "_")
        then "widget_foo" else ("widget" +:+ "_") +:+ "widget_foo")
       = "widget_foo").
Proof.
  assert ("widget_foo"
          ∈ dom (universe.getResourceTypeNamesFromEnvironment
                   (tables := unicode.Build_CaseTables id)
                   {[ "TERRAFORM_WIDGET_RESOURCETYPES" := "foo" ]} "widget"))
    as Hin.
  { apply elem_of_dom. exists true. reflexivity. }
  split; [exact Hin|].
  exact (resource_types_stable (tables := unicode.Build_CaseTables id)
           {[ "TERRAFORM_WIDGET_RESOURCETYPES" := "foo" ]} "widget"
           "widget_foo" Hin).
Defined.

Lemma resource_types_identity_token_witness :
  "widget" ∈ strings.Fields "widget foo"
  ∧ "widget_widget"
    ∈ dom (universe.getResourceTypeNamesFromEnvironment
             (tables := unicode.Build_CaseTables id)
             {[ "TERRAFORM_WIDGET_RESOURCETYPES" := "widget foo" ]} "widget").
Proof.
  assert ("widget" ∈ strings.Fields "widget foo") as Htok.
  { apply elem_of_cons. by left. }
  split; [exact Htok|].
  exact (resource_types_identity_token
           (tables := unicode.Build_CaseTables id)
           {[ "TERRAFORM_WIDGET_RESOURCETYPES" := "widget foo" ]} "widget"
           "widget foo" eq_refl Htok).
Defined.

Lemma getResourceMap_template_witness :
  universe.getResourceMap (tables := unicode.Build_CaseTables id)
    "generic" {[ "TERRAFORM_WIDGET_RESOURCETYPES" := "foo" ]} "widget"
  !! "widget_foo" = Some "generic"
  ∧ "generic" = "generic".
Proof.
  assert (universe.getResourceMap (tables := unicode.Build_CaseTables id)
            "generic" {[ "TERRAFORM_WIDGET_RESOURCETYPES" := "foo" ]}
            "widget" !! "widget_foo" = Some "generic") as Hx.
  { by rewrite getResourceMap_fmap. }
  split; [exact Hx|].
  exact (proj2 (getResourceMap_template
                  (tables := unicode.Build_CaseTables id) string "generic"
                  {[ "TERRAFORM_WIDGET_RESOURCETYPES" := "foo" ]} "widget")
           "widget_foo" "generic" Hx).
Defined.

Lemma Provider_resources_witness :
  schema.ResourcesMap
    (universe.Provider (tables := unicode.Build_CaseTables id) "generic"
       {[ "TERRAFORM_WIDGET_RESOURCETYPES" := "foo" ]}
       "terraform-provider-widget")
  !! universe.getProviderNameFromBinaryOrEnvironment
       {[ "TERRAFORM_WIDGET_RESOURCETYPES" := "foo" ]}
       "terraform-provider-widget"
  = Some "generic".
Proof.
  exact (proj1 (Provider_resources (tables := unicode.Build_CaseTables id)
                  string "generic"
                  {[ "TERRAFORM_WIDGET_RESOURCETYPES" := "foo" ]}
                  "terraform-provider-widget")).
Defined.

Lemma Provider_default_resources_witness :
  ¬ pattern.providerBinary (filepath.Base "debug.test")
  ∧ dom (schema.ResourcesMap
           (universe.Provider (tables := unicode.Build_CaseTables id)
              "generic"
              {[ "TERRAFORM_UNIVERSE_RESOURCETYPES" := "foo universe_bar" ]}
              "debug.test"))
    = {[ "universe" ]}
      ∪ list_to_set
          ((λ token, if strings.HasPrefix token "universe_" then token
                     else "universe_" +:+ token)
           <$> strings.Fields "foo universe_bar").
Proof.
  assert (¬ pattern.providerBinary (filepath.Base "debug.test")) as Hno.
  { intros (name & ver & pre & H & _). discriminate H. }
  split; [exact Hno|].
  apply (Provider_default_resources (tables := unicode.Build_CaseTables id)
           string "generic"
           {[ "TERRAFORM_UNIVERSE_RESOURCETYPES" := "foo universe_bar" ]}
           "debug.test" "foo universe_bar"); [reflexivity|exact Hno|].
  reflexivity.
Defined.

Lemma configure_reads_recognized_keys_witness :
  universe.providerConfigure
    (config.reader {[ "executor" := VString "python";
                      "region" := VString "eu" ]})
  = universe.providerConfigure
      (config.reader {[ "executor" := VString "python" ]}).
Proof.
  apply configure_reads_recognized_keys.
  intros key Hin. unfold universe.recognizedKeys in Hin.
  repeat (apply elem_of_cons in Hin as [->|Hin]); [reflexivity..|].
  by apply elem_of_nil in Hin.
Defined.

Lemma configure_nothing_supplied_witness :
  universe.providerConfigure (config.reader ∅) = (VMap ∅, None).
Proof.
  apply configure_nothing_supplied. intros key _. reflexivity.
Defined.
